(** * py3status: the relay between i3status and i3bar

    A shallow embedding of [py3status/__init__.py]: the line processor
    ([process_line]), the integrated clock transformation ([transform]),
    the plugin injection engine with its result cache ([inject]) and the
    body of the main loop ([main_loop_body]); the reader of the i3status
    config ([i3status_config_reader]) with the first check of [main], the
    thread that queues the output of i3status ([I3status.run]), and the
    loading of the plugins ([load_from_file] and the discovery in [main]).

    Conventions of the embedding.
    - Python objects that the relay handles (decoded JSON, plugin results)
      are values of the type [value]; a dict is an association list in
      insertion order, a tuple is a list.
    - The interpreter modelled is Python 3: comparing a number with a
      non-number raises [TypeError].
    - Numbers are integers.  A reading of [time()] is an integer count of
      clock units and [time() + CACHE_TIMEOUT] is exact addition.
    - In-place mutation ([j.insert], [item[k] = v]) is modelled by returning
      the updated object; the relay holds the only reference to the tick
      while it mutates it.  A plugin method is taken to read the tick it is
      handed, not to mutate it.
    - Signals are delivered between two iterations of the main loop. *)

From Stdlib Require Import ZArith String Ascii List Lia.
From Stdlib Require Import DecimalZ.
From stdpp Require Import base option list gmap strings sorting.

Local Open Scope Z_scope.
Local Open Scope string_scope.
Local Set Warnings "-register-all".
Local Open Scope list_scope.

(** ** Python values *)

Module Py.

Inductive value : Type :=
| VNone
| VBool (b : bool)
| VNum (n : Z)
| VStr (s : string)
| VList (l : list value)
| VDict (d : list (string * value)).

(** Exceptions that the relay tells apart ([except KeyError] against
    [except Exception]). *)
Inductive exn : Type :=
| KeyError
| TypeError
| ValueError
| AttributeError
| AssertionError
| OverflowError
| NameError.

Inductive res (A : Type) : Type :=
| Ok (a : A)
| Raise (e : exn).
Arguments Ok {A} a.
Arguments Raise {A} e.

#[global] Instance res_ret : MRet res := fun A a => Ok a.
#[global] Instance res_bind : MBind res := fun A B k r =>
  match r with
  | Ok a => k a
  | Raise e => Raise e
  end.

(** [d[k]] on the association list of a dict. *)
Fixpoint dict_get (k : string) (d : list (string * value)) : option value :=
  match d with
  | [] => None
  | (k', v) :: d' => if String.eqb k k' then Some v else dict_get k d'
  end.

(** [d[k] = v]: a present key keeps its position, a new key goes last. *)
Fixpoint dict_set (k : string) (v : value) (d : list (string * value))
  : list (string * value) :=
  match d with
  | [] => [(k, v)]
  | (k', v') :: d' =>
      if String.eqb k k' then (k', v) :: d' else (k', v') :: dict_set k v d'
  end.

Definition dict_has (k : string) (d : list (string * value)) : bool :=
  match dict_get k d with Some _ => true | None => false end.

Definition is_str (k : string) (v : value) : bool :=
  match v with
  | VStr s => String.eqb k s
  | _ => false
  end.

(** [k in s] for two strings: [k] occurs in [s]. *)
Fixpoint str_startswith (p s : string) : bool :=
  match p, s with
  | EmptyString, _ => true
  | String a p', String b s' => if Ascii.eqb a b then str_startswith p' s' else false
  | String _ _, EmptyString => false
  end.

Fixpoint str_contains (k s : string) : bool :=
  if str_startswith k s then true
  else match s with
       | EmptyString => false
       | String _ s' => str_contains k s'
       end.

(** [s[n:]]. *)
Fixpoint str_drop (n : nat) (s : string) : string :=
  match n, s with
  | O, _ => s
  | S n', String _ s' => str_drop n' s'
  | S _, EmptyString => EmptyString
  end.

(** [k in obj] for a string [k]. *)
Definition contains (k : string) (obj : value) : res bool :=
  match obj with
  | VDict d => Ok (dict_has k d)
  | VList l => Ok (existsb (is_str k) l)
  | VStr s => Ok (str_contains k s)
  | VNone | VBool _ | VNum _ => Raise TypeError
  end.

(** [obj[k]] for a string [k]. *)
Definition getitem (obj : value) (k : string) : res value :=
  match obj with
  | VDict d => match dict_get k d with
               | Some v => Ok v
               | None => Raise KeyError
               end
  | _ => Raise TypeError
  end.

(** [obj[k] = v] for a string [k]; the result is the mutated object. *)
Definition setitem (obj : value) (k : string) (v : value) : res value :=
  match obj with
  | VDict d => Ok (VDict (dict_set k v d))
  | _ => Raise TypeError
  end.

Definition isinstance_dict (obj : value) : bool :=
  match obj with
  | VDict _ => true
  | _ => false
  end.

(** [now > v] for a clock reading [now]. *)
Definition num_gt (now : Z) (v : value) : res bool :=
  match v with
  | VNum t => Ok (t <? now)%Z
  | VBool b => Ok (Z.b2z b <? now)%Z
  | _ => Raise TypeError
  end.

(** [list.insert(i, x)]: a negative index counts from the end, and an index
    out of range is clamped to the nearest end. *)
Definition insert_pos (i : Z) (n : nat) : nat :=
  if (i <? 0)%Z then Z.to_nat (Z.of_nat n + i) else Nat.min (Z.to_nat i) n.

Definition list_insert {A} (i : Z) (x : A) (l : list A) : list A :=
  let p := insert_pos i (length l) in
  take p l ++ x :: drop p l.

(** [j.insert(index, result)] on arbitrary objects. *)
Definition insert (j index result : value) : res value :=
  match j with
  | VList l =>
      match index with
      | VNum i => Ok (VList (list_insert i result l))
      | VBool b => Ok (VList (list_insert (Z.b2z b) result l))
      | _ => Raise TypeError
      end
  | _ => Raise AttributeError
  end.

(** [s.strip('\n')]. *)
Definition newline : ascii := "010"%char.

Fixpoint lstrip_nl (s : string) : string :=
  match s with
  | String a s' => if Ascii.eqb a newline then lstrip_nl s' else s
  | EmptyString => EmptyString
  end.

Fixpoint rstrip_nl (s : string) : string :=
  match s with
  | EmptyString => EmptyString
  | String a s' =>
      match rstrip_nl s' with
      | EmptyString => if Ascii.eqb a newline then EmptyString else String a EmptyString
      | r => String a r
      end
  end.

Definition strip_nl (s : string) : string := rstrip_nl (lstrip_nl s).

End Py.

(** ** The [json] module: [dumps] and [loads]

    [dumps] is Python's encoder with its default settings: the item
    separator is a comma followed by a space, the key separator is a colon
    followed by a space, and [ensure_ascii] escapes every character outside
    the printable ASCII range.  [loads] is the decoder in strict mode.
    Characters are code points below 256; numbers with a fraction or an
    exponent, the constants [NaN] and [Infinity], and escapes of code points
    from 256 on, are outside the modelled fragment ([loads] gives [None]
    there, as it does where Python raises [ValueError]). *)

Module Json.
Import Py.

Definition quote : ascii := "034"%char.
Definition backslash : ascii := "092"%char.

Definition hex_digit (n : N) : ascii :=
  match String.get (N.to_nat n) "0123456789abcdef" with
  | Some c => c
  | None => "0"%char
  end.

Definition escape_char (a : ascii) : string :=
  let n := N_of_ascii a in
  if Ascii.eqb a quote then String backslash (String quote EmptyString)
  else if Ascii.eqb a backslash then String backslash (String backslash EmptyString)
  else if (n =? 10)%N then String backslash "n"
  else if (n =? 13)%N then String backslash "r"
  else if (n =? 9)%N then String backslash "t"
  else if (n =? 8)%N then String backslash "b"
  else if (n =? 12)%N then String backslash "f"
  else if ((n <? 32) || (126 <? n))%N then
    String backslash
      (String "u" (String "0" (String "0"
        (String (hex_digit (n / 16)) (String (hex_digit (n mod 16)) EmptyString)))))
  else String a EmptyString.

Fixpoint escape (s : string) : string :=
  match s with
  | EmptyString => EmptyString
  | String a s' => escape_char a +:+ escape s'
  end.

Definition encode_string (s : string) : string :=
  String quote (escape s +:+ String quote EmptyString).

Fixpoint uint_digits (u : Decimal.uint) : string :=
  match u with
  | Decimal.Nil => EmptyString
  | Decimal.D0 u' => String "0" (uint_digits u')
  | Decimal.D1 u' => String "1" (uint_digits u')
  | Decimal.D2 u' => String "2" (uint_digits u')
  | Decimal.D3 u' => String "3" (uint_digits u')
  | Decimal.D4 u' => String "4" (uint_digits u')
  | Decimal.D5 u' => String "5" (uint_digits u')
  | Decimal.D6 u' => String "6" (uint_digits u')
  | Decimal.D7 u' => String "7" (uint_digits u')
  | Decimal.D8 u' => String "8" (uint_digits u')
  | Decimal.D9 u' => String "9" (uint_digits u')
  end.

Definition encode_int (n : Z) : string :=
  match Z.to_int n with
  | Decimal.Pos u => uint_digits u
  | Decimal.Neg u => String "-" (uint_digits u)
  end.

Fixpoint join (sep : string) (l : list string) : string :=
  match l with
  | [] => EmptyString
  | [x] => x
  | x :: l' => x +:+ sep +:+ join sep l'
  end.

Fixpoint dumps (v : value) : string :=
  match v with
  | VNone => "null"
  | VBool true => "true"
  | VBool false => "false"
  | VNum n => encode_int n
  | VStr s => encode_string s
  | VList l => "[" +:+ join ", " (map dumps l) +:+ "]"
  | VDict d =>
      "{" +:+ join ", "
                (map (fun kv => encode_string (fst kv) +:+ ": " +:+ dumps (snd kv)) d)
          +:+ "}"
  end.

(** *** Decoding *)

Definition is_ws (a : ascii) : bool :=
  let n := N_of_ascii a in
  ((n =? 32) || (n =? 9) || (n =? 10) || (n =? 13))%N.

Fixpoint skip_ws (s : string) : string :=
  match s with
  | String a s' => if is_ws a then skip_ws s' else s
  | EmptyString => EmptyString
  end.

Definition digit_of (a : ascii) : option (Decimal.uint -> Decimal.uint) :=
  match (N_of_ascii a - 48)%N, (48 <=? N_of_ascii a)%N with
  | 0%N, true => Some Decimal.D0
  | 1%N, _ => Some Decimal.D1
  | 2%N, _ => Some Decimal.D2
  | 3%N, _ => Some Decimal.D3
  | 4%N, _ => Some Decimal.D4
  | 5%N, _ => Some Decimal.D5
  | 6%N, _ => Some Decimal.D6
  | 7%N, _ => Some Decimal.D7
  | 8%N, _ => Some Decimal.D8
  | 9%N, _ => Some Decimal.D9
  | _, _ => None
  end.

Fixpoint parse_digits (s : string) : Decimal.uint * string :=
  match s with
  | String a s' =>
      match digit_of a with
      | Some d => let (u, r) := parse_digits s' in (d u, r)
      | None => (Decimal.Nil, s)
      end
  | EmptyString => (Decimal.Nil, EmptyString)
  end.

(** The integer part of a JSON number: a single zero, or a digit from one to
    nine followed by digits. *)
Definition parse_uint (s : string) : option (Decimal.uint * string) :=
  match s with
  | String a s' =>
      if Ascii.eqb a "0" then Some (Decimal.D0 Decimal.Nil, s')
      else match digit_of a with
           | Some d => let (u, r) := parse_digits s' in Some (d u, r)
           | None => None
           end
  | EmptyString => None
  end.

Definition starts_fraction (s : string) : bool :=
  match s with
  | String a _ => Ascii.eqb a "." || Ascii.eqb a "e" || Ascii.eqb a "E"
  | EmptyString => false
  end.

Definition parse_number (s : string) : option (value * string) :=
  match s with
  | String a s' =>
      if Ascii.eqb a "-" then
        match parse_uint s' with
        | Some (u, r) =>
            if starts_fraction r then None
            else Some (VNum (Z.of_int (Decimal.Neg u)), r)
        | None => None
        end
      else
        match parse_uint s with
        | Some (u, r) =>
            if starts_fraction r then None
            else Some (VNum (Z.of_int (Decimal.Pos u)), r)
        | None => None
        end
  | EmptyString => None
  end.

Definition hex_value (a : ascii) : option N :=
  let n := N_of_ascii a in
  if ((48 <=? n) && (n <=? 57))%N then Some (n - 48)%N
  else if ((97 <=? n) && (n <=? 102))%N then Some (n - 87)%N
  else if ((65 <=? n) && (n <=? 70))%N then Some (n - 55)%N
  else None.

Definition hex4 (a b c d : ascii) : option N :=
  match hex_value a, hex_value b, hex_value c, hex_value d with
  | Some x, Some y, Some z, Some w => Some (((x * 16 + y) * 16 + z) * 16 + w)%N
  | _, _, _, _ => None
  end.

Definition unescape (b : ascii) : option ascii :=
  if Ascii.eqb b quote then Some quote
  else if Ascii.eqb b backslash then Some backslash
  else if Ascii.eqb b "/" then Some "/"%char
  else if Ascii.eqb b "b" then Some "008"%char
  else if Ascii.eqb b "f" then Some "012"%char
  else if Ascii.eqb b "n" then Some "010"%char
  else if Ascii.eqb b "r" then Some "013"%char
  else if Ascii.eqb b "t" then Some "009"%char
  else None.

(** The body of a string literal, after its opening quote. *)
Fixpoint parse_string (s : string) : option (string * string) :=
  match s with
  | EmptyString => None
  | String a s' =>
      if Ascii.eqb a quote then Some (EmptyString, s')
      else if Ascii.eqb a backslash then
        match s' with
        | String b s'' =>
            if Ascii.eqb b "u" then
              match s'' with
              | String h1 (String h2 (String h3 (String h4 r))) =>
                  match hex4 h1 h2 h3 h4 with
                  | Some code =>
                      if (code <? 256)%N then
                        match parse_string r with
                        | Some (t, rest) => Some (String (ascii_of_N code) t, rest)
                        | None => None
                        end
                      else None
                  | None => None
                  end
              | _ => None
              end
            else
              match unescape b with
              | Some c =>
                  match parse_string s'' with
                  | Some (t, rest) => Some (String c t, rest)
                  | None => None
                  end
              | None => None
              end
        | EmptyString => None
        end
      else if (N_of_ascii a <? 32)%N then None
      else
        match parse_string s' with
        | Some (t, rest) => Some (String a t, rest)
        | None => None
        end
  end.

(** [dict(pairs)]: a repeated key keeps its first position and takes the
    last value. *)
Definition dict_of_pairs (pairs : list (string * value)) : list (string * value) :=
  fold_left (fun d kv => dict_set (fst kv) (snd kv) d) pairs [].

Fixpoint parse_value (fuel : nat) (s : string) : option (value * string) :=
  match fuel with
  | O => None
  | S n =>
      match s with
      | EmptyString => None
      | String c r =>
          if Ascii.eqb c quote then
            match parse_string r with
            | Some (t, rest) => Some (VStr t, rest)
            | None => None
            end
          else if Ascii.eqb c "[" then
            match skip_ws r with
            | String c1 r1 =>
                if Ascii.eqb c1 "]" then Some (VList [], r1)
                else match parse_elems n (String c1 r1) with
                     | Some (l, rest) => Some (VList l, rest)
                     | None => None
                     end
            | EmptyString => None
            end
          else if Ascii.eqb c "{" then
            match skip_ws r with
            | String c1 r1 =>
                if Ascii.eqb c1 "}" then Some (VDict [], r1)
                else match parse_members n (String c1 r1) with
                     | Some (d, rest) => Some (VDict (dict_of_pairs d), rest)
                     | None => None
                     end
            | EmptyString => None
            end
          else if str_startswith "null" s then Some (VNone, str_drop 4 s)
          else if str_startswith "true" s then Some (VBool true, str_drop 4 s)
          else if str_startswith "false" s then Some (VBool false, str_drop 5 s)
          else parse_number s
      end
  end
with parse_elems (fuel : nat) (s : string) : option (list value * string) :=
  match fuel with
  | O => None
  | S n =>
      match parse_value n s with
      | Some (v, r) =>
          match skip_ws r with
          | String c r1 =>
              if Ascii.eqb c "," then
                match parse_elems n (skip_ws r1) with
                | Some (l, rest) => Some (v :: l, rest)
                | None => None
                end
              else if Ascii.eqb c "]" then Some ([v], r1)
              else None
          | EmptyString => None
          end
      | None => None
      end
  end
with parse_members (fuel : nat) (s : string)
  : option (list (string * value) * string) :=
  match fuel with
  | O => None
  | S n =>
      match s with
      | String q r =>
          if Ascii.eqb q quote then
            match parse_string r with
            | Some (k, r1) =>
                match skip_ws r1 with
                | String c r2 =>
                    if Ascii.eqb c ":" then
                      match parse_value n (skip_ws r2) with
                      | Some (v, r3) =>
                          match skip_ws r3 with
                          | String c' r4 =>
                              if Ascii.eqb c' "," then
                                match parse_members n (skip_ws r4) with
                                | Some (d, rest) => Some ((k, v) :: d, rest)
                                | None => None
                                end
                              else if Ascii.eqb c' "}" then Some ([(k, v)], r4)
                              else None
                          | EmptyString => None
                          end
                      | None => None
                      end
                    else None
                | EmptyString => None
                end
            | None => None
            end
          else None
      | EmptyString => None
      end
  end.

(** [loads(s)]; [None] stands for [ValueError]. *)
Definition loads (s : string) : option value :=
  match parse_value (S (2 * String.length s)) (skip_ws s) with
  | Some (v, r) =>
      match skip_ws r with
      | EmptyString => Some v
      | String _ _ => None
      end
  | None => None
  end.

(** *** Encodings that decode to their value *)

(** Fuel that decoding the encoding of a value takes. *)
Fixpoint depth (v : value) : nat :=
  match v with
  | VList l =>
      S ((fix go (l : list value) : nat :=
            match l with
            | [] => O
            | x :: l' => S (Nat.max (depth x) (go l'))
            end) l)
  | VDict d =>
      S ((fix go (d : list (string * value)) : nat :=
            match d with
            | [] => O
            | kv :: d' => S (Nat.max (depth (snd kv)) (go d'))
            end) d)
  | _ => 1
  end.

(** The same for the items of a list and for the members of a dict. *)
Fixpoint elems_depth (l : list value) : nat :=
  match l with
  | [] => O
  | x :: l' => S (Nat.max (depth x) (elems_depth l'))
  end.

Fixpoint members_depth (d : list (string * value)) : nat :=
  match d with
  | [] => O
  | kv :: d' => S (Nat.max (depth (snd kv)) (members_depth d'))
  end.

(** Values whose dicts have no repeated key, as [loads] builds them. *)
Inductive wf : value → Prop :=
| wf_none : wf VNone
| wf_bool b : wf (VBool b)
| wf_num n : wf (VNum n)
| wf_str s : wf (VStr s)
| wf_list l : Forall wf l → wf (VList l)
| wf_dict d : NoDup (map fst d) → Forall (fun kv => wf (snd kv)) d → wf (VDict d).

(** How [dumps] writes one member of a dict. *)
Definition member (kv : string * value) : string :=
  encode_string (fst kv) +:+ ": " +:+ dumps (snd kv).

(** What may follow a number: not a digit and not the start of a fraction
    or of an exponent. *)
Definition ends_number (rest : string) : Prop :=
  match rest with
  | EmptyString => True
  | String a _ => digit_of a = None ∧ starts_fraction rest = false
  end.

(** The first character of an encoded number: a digit or the sign. *)
Definition starts_number (c : ascii) : bool :=
  match digit_of c with
  | Some _ => true
  | None => Ascii.eqb c "-"
  end.

(** The first character of an encoding: neither a blank nor a closing
    bracket. *)
Definition starts_value (c : ascii) : bool :=
  negb (is_ws c) && negb (Ascii.eqb c "]").

(** Decoding the encoding of [v], followed by any text that may follow a
    number, gives [v] and leaves that text. *)
Definition decodes (v : value) : Prop :=
  ∀ n rest, (depth v ≤ n)%nat → ends_number rest →
            parse_value n (dumps v +:+ rest) = Some (v, rest).

End Json.

(** ** The relay *)

Module Relay.
Import Py.

(** What calling [getattr(my_class, my_method)(j, I3STATUS_CONFIG)] yields:
    a pair that unpacks into [index, result], or an exception (a missing or
    non-callable attribute and a return value that does not unpack into two
    names raise inside the same [try]). *)
Inductive outcome : Type :=
| Returns (index result : value)
| Raises.

(** The dict built by [i3status_config_reader], for the keys the relay
    reads. *)
Record i3status_config : Type := {
  interval : Z;
  time_format : string
}.

(** What lies outside the module: the plugin classes with their hidden
    state, the wall clock (the [n]-th reading of [time()]) and the
    [datetime] library ([None] where the library raises). *)
Record Env : Type := {
  world : Type;
  call : string -> string -> value -> i3status_config -> world -> outcome * world;
  clock : nat -> Z;
  datetime : Type;
  strptime : string -> string -> option datetime;
  add_seconds : datetime -> Z -> option datetime;
  strftime : datetime -> string -> option string
}.

(** The module globals that [main] sets once.  [USER_CLASSES] maps a file
    name to the method names found by [dir]; the class instance is
    identified by the file name. *)
Record globals : Type := {
  CACHE_TIMEOUT : Z;
  DISABLE_TRANSFORM : bool;
  I3STATUS_CONFIG : i3status_config;
  INTERVAL : Z;
  USER_CLASSES : gmap string (list string)
}.

(** The values at module level and in [i3status_config_reader]. *)
Definition default_config : i3status_config :=
  {| interval := 5; time_format := "%Y-%m-%d %H:%M:%S" |}.

Definition default_globals (classes : gmap string (list string)) : globals :=
  {| CACHE_TIMEOUT := 60;
     DISABLE_TRANSFORM := false;
     I3STATUS_CONFIG := default_config;
     INTERVAL := 1;
     USER_CLASSES := classes |}.

Inductive log_entry : Type :=
| MethodFailed (my_method : string)
| InjectionFailed (err : exn)
| TransformationFailed (err : exn)
| WaitingForI3status
| ForcedRefresh.

(** [sorted(d.keys())] on strings. *)
Definition str_le (a b : string) : Prop := String.leb a b = true.

#[global] Instance str_le_dec (a b : string) : Decision (str_le a b).
Proof. unfold str_le. apply _. Defined.

Definition sorted_keys {A} (d : gmap string A) : list string :=
  merge_sort str_le (map fst (map_to_list d)).

Definition placeholder : value :=
  VDict [("name", VStr EmptyString); ("full_text", VStr EmptyString)].

(** The three assertions that validate a plugin response. *)
Definition validate (result : value) : option exn :=
  if negb (isinstance_dict result) then Some AssertionError
  else match contains "full_text" result with
       | Raise e => Some e
       | Ok false => Some AssertionError
       | Ok true =>
           match contains "name" result with
           | Raise e => Some e
           | Ok false => Some AssertionError
           | Ok true => None
           end
       end.

(** How the inner [try] of [inject] ends: without an exception, with an
    exception other than [KeyError] after [index, result] were bound, or
    with [KeyError]. *)
Inductive probe : Type :=
| Hit (index result : value)
| HitRaise (index result : value) (err : exn)
| Miss.

Section relay.
Context (E : Env) (G : globals).

(** The mutable state: [USER_CACHE], the hidden state of the plugins, and
    the traces of what the relay did (clock readings taken, plugin methods
    called, syslog messages, lines written to stdout). *)
Record state : Type := {
  USER_CACHE : gmap string (value * value);
  plugins : world E;
  time_calls : nat;
  invocations : list (string * string);
  syslog : list log_entry;
  stdout : list string
}.

Definition time (s : state) : Z * state :=
  (clock E (time_calls s),
   {| USER_CACHE := USER_CACHE s; plugins := plugins s;
      time_calls := S (time_calls s); invocations := invocations s;
      syslog := syslog s; stdout := stdout s |}).

Definition syslog_write (entry : log_entry) (s : state) : state :=
  {| USER_CACHE := USER_CACHE s; plugins := plugins s;
     time_calls := time_calls s; invocations := invocations s;
     syslog := syslog s ++ [entry]; stdout := stdout s |}.

Definition set_cache (c : gmap string (value * value)) (s : state) : state :=
  {| USER_CACHE := c; plugins := plugins s;
     time_calls := time_calls s; invocations := invocations s;
     syslog := syslog s; stdout := stdout s |}.

(** [sys.stdout.write(message + '\n')]. *)
Definition print_line (message : string) (s : state) : state :=
  {| USER_CACHE := USER_CACHE s; plugins := plugins s;
     time_calls := time_calls s; invocations := invocations s;
     syslog := syslog s;
     stdout := stdout s ++ [message +:+ String newline EmptyString] |}.

Definition invoke (my_class my_method : string) (j : value) (s : state)
  : outcome * state :=
  let (out, w) := call E my_class my_method j (I3STATUS_CONFIG G) (plugins s) in
  (out,
   {| USER_CACHE := USER_CACHE s; plugins := w;
      time_calls := time_calls s;
      invocations := invocations s ++ [(my_class, my_method)];
      syslog := syslog s; stdout := stdout s |}).

(** *** [inject] *)

(** The inner [try]: read the cache entry and compare its [cached_until]
    with the clock. *)
Definition cache_lookup (my_method : string) (s : state) : probe * state :=
  match USER_CACHE s !! my_method with
  | None => (Miss, s)
  | Some (index, result) =>
      let (now, s1) := time s in
      match getitem result "cached_until" with
      | Raise KeyError => (Miss, s1)
      | Raise e => (HitRaise index result e, s1)
      | Ok cached_until =>
          match num_gt now cached_until with
          | Raise e => (HitRaise index result e, s1)
          | Ok true => (Miss, s1)
          | Ok false => (Hit index result, s1)
          end
      end
  end.

(** The [except KeyError] handler: execute the method, default
    [cached_until], validate.  It gives the bindings of [index] and [result]
    when it is left, and the exception it is left with, if any. *)
Definition execute (my_class my_method : string) (j : value) (s : state)
  : (value * value * option exn) * state :=
  let (out, s1) := invoke my_class my_method j s in
  let '(index, result, s2) :=
    match out with
    | Returns index result => (index, result, s1)
    | Raises => (VNum 0, placeholder, syslog_write (MethodFailed my_method) s1)
    end in
  match contains "cached_until" result with
  | Raise e => ((index, result, Some e), s2)
  | Ok true => ((index, result, validate result), s2)
  | Ok false =>
      let (now, s3) := time s2 in
      match setitem result "cached_until" (VNum (now + CACHE_TIMEOUT G)) with
      | Raise e => ((index, result, Some e), s3)
      | Ok result' => ((index, result', validate result'), s3)
      end
  end.

(** The [finally] block, followed by the outer [except Exception] that
    logs whatever exception is still pending. *)
Definition store_and_insert (my_method : string) (index result : value)
    (pending : option exn) (j : value) (s : state) : value * state :=
  let s1 := set_cache (<[my_method := (index, result)]> (USER_CACHE s)) s in
  match insert j index result with
  | Raise e => (j, syslog_write (InjectionFailed e) s1)
  | Ok j' =>
      match pending with
      | Some e => (j', syslog_write (InjectionFailed e) s1)
      | None => (j', s1)
      end
  end.

(** The body of the loop over [my_methods]. *)
Definition inject_method (my_class my_method : string) (j : value) (s : state)
  : value * state :=
  let (p, s1) := cache_lookup my_method s in
  match p with
  | Hit index result => store_and_insert my_method index result None j s1
  | HitRaise index result e => store_and_insert my_method index result (Some e) j s1
  | Miss =>
      let '(index, result, pending, s2) := execute my_class my_method j s1 in
      store_and_insert my_method index result pending j s2
  end.

Definition inject_methods (my_class : string) (my_methods : list string)
    (js : value * state) : value * state :=
  foldl (fun js my_method => inject_method my_class my_method js.1 js.2)
        js my_methods.

(** The body of the loop over [sorted(USER_CLASSES.keys())]. *)
Definition inject_class (js : value * state) (class_name : string)
  : value * state :=
  match USER_CLASSES G !! class_name with
  | Some my_methods => inject_methods class_name my_methods js
  | None => js
  end.

Definition inject (j : value) (s : state) : value * state :=
  foldl inject_class (j, s) (sorted_keys (USER_CLASSES G)).

(** The pairs of a class and a method in the order in which the two loops
    of [inject] visit them, and the pairs that [main] registered. *)
Definition schedule : list (string * string) :=
  class_name ← sorted_keys (USER_CLASSES G);
  (fun my_method => (class_name, my_method))
    <$> default [] (USER_CLASSES G !! class_name).

Definition inject_step (js : value * state) (cm : string * string)
  : value * state :=
  inject_method cm.1 cm.2 js.1 js.2.

Definition registered (my_class my_method : string) : Prop :=
  ∃ my_methods,
    USER_CLASSES G !! my_class = Some my_methods ∧ my_method ∈ my_methods.

(** The object that [result] is after the default of [cached_until] was
    attempted at clock reading [now]: a dict without the key gets it, any
    other object stays as it is. *)
Definition with_cached_until (now : Z) (result : value) : value :=
  match result with
  | VDict d =>
      if dict_has "cached_until" d then result
      else VDict (dict_set "cached_until" (VNum (now + CACHE_TIMEOUT G)) d)
  | _ => result
  end.

(** *** [transform] *)

(** [name in [ 'time', 'tztime' ]]. *)
Definition is_clock (name : value) : bool :=
  is_str "time" name || is_str "tztime" name.

(** The body of the loop over the items of the tick. *)
Definition transform_item (delta : Z) (item : value) : res value :=
  name ← getitem item "name";
  if is_clock name then
    let fmt := time_format (I3STATUS_CONFIG G) in
    full_text ← getitem item "full_text";
    match full_text with
    | VStr text =>
        match strptime E text fmt with
        | None => Raise ValueError
        | Some parsed =>
            match add_seconds E parsed delta with
            | None => Raise OverflowError
            | Some date =>
                match strftime E date fmt with
                | None => Raise ValueError
                | Some text' =>
                    item1 ← setitem item "full_text" (VStr text');
                    if (0 <? delta)%Z
                    then setitem item1 "transformed" (VBool true)
                    else Ok item1
                end
            end
        end
    | _ => Raise TypeError
    end
  else Ok item.

(** The dict of a clock item after the mark of a positive delta. *)
Definition mark (delta : Z) (d : list (string * value)) : list (string * value) :=
  if (0 <? delta)%Z then dict_set "transformed" (VBool true) d else d.

(** What [strftime] wrote for the item after the delta parses back to the
    datetime it was written from: the format loses nothing of it. *)
Definition reparses (delta : Z) (item : value) : Prop :=
  ∀ text x y text',
    getitem item "full_text" = Ok (VStr text) →
    strptime E text (time_format (I3STATUS_CONFIG G)) = Some x →
    add_seconds E x delta = Some y →
    strftime E y (time_format (I3STATUS_CONFIG G)) = Some text' →
    strptime E text' (time_format (I3STATUS_CONFIG G)) = Some y.

(** The [for] loop: it stops at the first item whose body raises, the items
    before it keep their update. *)
Fixpoint transform_items (delta : Z) (items : list value)
  : list value * option exn :=
  match items with
  | [] => ([], None)
  | item :: rest =>
      match transform_item delta item with
      | Raise e => (item :: rest, Some e)
      | Ok item' =>
          let (rest', e) := transform_items delta rest in
          (item' :: rest', e)
      end
  end.

(** Iterating an object that is not a list: a dict yields its keys and a
    string its characters, on which [item['name']] raises; the other
    objects are not iterable. *)
Definition transform_loop (delta : Z) (j : value) : value * option exn :=
  match j with
  | VList items =>
      let (items', e) := transform_items delta items in (VList items', e)
  | VDict [] => (j, None)
  | VStr EmptyString => (j, None)
  | _ => (j, Some TypeError)
  end.

Definition transform (j : value) (delta : Z) (s : state) : value * state :=
  match transform_loop delta j with
  | (j', Some e) => (j', syslog_write (TransformationFailed e) s)
  | (j', None) => (j', s)
  end.

(** *** [process_line] *)

(** [line.startswith('{') and 'version' in line] and [line == '[\n']. *)
Definition is_header (line : string) : bool :=
  str_startswith "{" line && str_contains "version" line.

Definition is_array_open (line : string) : bool :=
  String.eqb line (String "[" (String newline EmptyString)).

Definition process_line (line : string) (delta : Z) (s : state)
  : res (option string) * state :=
  if is_header line then
    (Ok None, print_line (strip_nl line) s)
  else if is_array_open line then
    (Ok None, print_line (strip_nl line) s)
  else
    let '(line, prefix) :=
      if str_startswith "," line then (str_drop 1 line, ",")
      else if (0 <? delta)%Z then (line, ",")
      else (line, EmptyString) in
    match Json.loads line with
    | None => (Raise ValueError, s)
    | Some j0 =>
        let (j1, s1) :=
          if DISABLE_TRANSFORM G then (j0, s) else transform j0 delta s in
        let (j2, s2) := inject j1 s1 in
        let output := prefix +:+ Json.dumps j2 in
        (Ok (Some output), print_line output s2)
    end.

(** *** The main loop *)

(** What one iteration of [while True] meets.  The flags of the i3status
    thread and the thread count are read by the iteration; they are written
    by the other thread, so they come with the event. *)
Inductive event : Type :=
| QueueLine (line : string) (started : bool)
| QueueEmpty (started init : bool) (active_count : nat)
| SigUsr1
| KeyboardInterrupt.

(** The local variable [line]: unbound before the first line, [None] after
    [process_line] returned nothing. *)
Inductive line_var : Type :=
| Unbound
| LineNone
| LineStr (line : string).

Record loop_state : Type := {
  line : line_var;
  forced : bool;
  relay : state
}.

Inductive step : Type :=
| Continue (ls : loop_state)
| Break (ls : loop_state)
| Exit (code : Z) (ls : loop_state).

Definition line_of_result (r : option string) : line_var :=
  match r with
  | Some output => LineStr output
  | None => LineNone
  end.

(** One iteration of [while True].  The pause of [sleep] is not modelled,
    only the clock reading in its argument. *)
Definition main_loop_body (ev : event) (ls : loop_state) : step :=
  let (tst, s) := time (relay ls) in
  match ev with
  | QueueLine l started =>
      let '(forced', s1) :=
        if started then
          if negb (forced ls) && (INTERVAL G <? interval (I3STATUS_CONFIG G))%Z
          then (forced ls, (time s).2)
          else (false, s)
        else (forced ls, s) in
      match process_line l 0 s1 with
      | (Ok _, s2) => Continue {| line := LineStr l; forced := forced'; relay := s2 |}
      | (Raise _, s2) => Exit 2 {| line := LineStr l; forced := forced'; relay := s2 |}
      end
  | QueueEmpty started init active_count =>
      if started || negb init then
        match line ls with
        | LineStr l =>
            match process_line l (INTERVAL G) s with
            | (Ok r, s1) =>
                let ls' := {| line := line_of_result r; forced := forced ls; relay := s1 |} in
                if (active_count <? 2)%nat then Break ls' else Continue ls'
            | (Raise _, s1) =>
                Exit 2 {| line := line ls; forced := forced ls; relay := s1 |}
            end
        | LineNone | Unbound =>
            Exit 2 {| line := line ls; forced := forced ls; relay := s |}
        end
      else
        Continue {| line := line ls; forced := forced ls;
                    relay := syslog_write WaitingForI3status s |}
  | SigUsr1 =>
      Continue {| line := line ls; forced := true;
                  relay := set_cache ∅ (syslog_write ForcedRefresh s) |}
  | KeyboardInterrupt =>
      Break {| line := line ls; forced := forced ls; relay := s |}
  end.

End relay.

Arguments USER_CACHE {E} s.
Arguments plugins {E} s.
Arguments time_calls {E} s.
Arguments invocations {E} s.
Arguments syslog {E} s.
Arguments stdout {E} s.
Arguments line {E} l.
Arguments forced {E} l.
Arguments relay {E} l.
Arguments Continue {E} ls.
Arguments Break {E} ls.
Arguments Exit {E} code ls.

End Relay.

(** ** Strings: [strip], [split], [rfind], [lower]

    A string is the sequence of its code points below 256. *)

Module PyStr.

(** [s.lstrip(chars)], [s.rstrip(chars)] and [s.strip(chars)] for the set
    of characters that [p] accepts. *)
Fixpoint lstrip (p : ascii -> bool) (s : string) : string :=
  match s with
  | String a s' => if p a then lstrip p s' else s
  | EmptyString => EmptyString
  end.

Fixpoint rstrip (p : ascii -> bool) (s : string) : string :=
  match s with
  | EmptyString => EmptyString
  | String a s' =>
      match rstrip p s' with
      | EmptyString => if p a then EmptyString else String a EmptyString
      | r => String a r
      end
  end.

Definition strip (p : ascii -> bool) (s : string) : string :=
  rstrip p (lstrip p s).

(** The characters of [' \t\n\r']. *)
Definition is_blank (a : ascii) : bool :=
  Ascii.eqb a " " || Ascii.eqb a "009" || Ascii.eqb a "010" || Ascii.eqb a "013".

(** The characters that [str.strip()] removes: those for which
    [str.isspace] holds. *)
Definition is_space (a : ascii) : bool :=
  let n := nat_of_ascii a in
  ((9 <=? n) && (n <=? 13) || (28 <=? n) && (n <=? 32)
   || (n =? 133) || (n =? 160))%nat.

(** [s.split(sep)] for a separator of one character. *)
Fixpoint split (sep : ascii) (s : string) : list string :=
  match s with
  | EmptyString => [EmptyString]
  | String a s' =>
      if Ascii.eqb a sep then EmptyString :: split sep s'
      else match split sep s' with
           | piece :: pieces => String a piece :: pieces
           | [] => [String a EmptyString]
           end
  end.

(** [s.rfind(c)], with [None] for [-1]. *)
Fixpoint rfind (c : ascii) (s : string) : option nat :=
  match s with
  | EmptyString => None
  | String a s' =>
      match rfind c s' with
      | Some i => Some (S i)
      | None => if Ascii.eqb a c then Some O else None
      end
  end.

(** [s[:n]]. *)
Fixpoint str_take (n : nat) (s : string) : string :=
  match n, s with
  | O, _ => EmptyString
  | S n', String a s' => String a (str_take n' s')
  | S _, EmptyString => EmptyString
  end.

Fixpoint all_chars (p : ascii -> bool) (s : string) : bool :=
  match s with
  | EmptyString => true
  | String a s' => p a && all_chars p s'
  end.

(** [s.lower()]: the letters A to Z and the capital letters of Latin-1. *)
Definition lower_char (a : ascii) : ascii :=
  let n := nat_of_ascii a in
  if ((65 <=? n) && (n <=? 90)
      || (192 <=? n) && (n <=? 222) && negb (n =? 215))%nat
  then ascii_of_nat (n + 32)
  else a.

Fixpoint lower (s : string) : string :=
  match s with
  | EmptyString => EmptyString
  | String a s' => String (lower_char a) (lower s')
  end.

End PyStr.

(** ** [i3status_config_reader] and the initialisation of [main]

    The file is the list of its lines.  [eval] is the evaluator of Python
    expressions, [None] where it raises; [None] is also what the reader
    gives when an exception leaves it. *)

Module Config.
Import Py PyStr.

(** The dict that the reader starts from. *)
Definition config : list (string * value) :=
  [("colors", VBool false);
   ("color_good", VNone);
   ("color_bad", VNone);
   ("color_degraded", VNone);
   ("color_separator", VNone);
   ("interval", VNum 5);
   ("output_format", VNone);
   ("time_format", VStr "%Y-%m-%d %H:%M:%S")].

Record reader_state : Type := {
  in_time : bool;
  in_general : bool;
  current : list (string * value)
}.

(** [line.split('=')[0].strip(), line.split('=')[1].strip()]; [None] where
    an index is out of range. *)
Definition key_value (line : string) : option (string * string) :=
  let pieces := split "=" line in
  key ← pieces !! 0%nat;
  value ← pieces !! 1%nat;
  Some (strip is_space key, strip is_space value).

(** [value in ['true', 'false']] and the conditional expression. *)
Definition python_bool (value : string) : string :=
  if String.eqb value "true" then "True"
  else if String.eqb value "false" then "False"
  else value.

(** A line that opens one of the two sections that the reader knows. *)
Definition opens_section (raw : string) : bool :=
  let line := strip is_blank raw in
  str_startswith "general" line || str_startswith "time" line.

Section reader.
Variable eval : string -> option value.

(** The two assignments of the loop body. *)
Definition assign_general (line : string) (cfg : list (string * value))
  : option (list (string * value)) :=
  '(key, value) ← key_value line;
  if dict_has key cfg then
    v ← eval (python_bool value); Some (dict_set key v cfg)
  else Some cfg.

Definition assign_time (line : string) (cfg : list (string * value))
  : option (list (string * value)) :=
  '(key, value) ← key_value line;
  if dict_has ("time_" +:+ key) cfg then
    v ← eval value; Some (dict_set ("time_" +:+ key) v cfg)
  else Some cfg.

(** The body of the loop over the lines of the file. *)
Definition reader_step (st : reader_state) (raw : string)
  : option reader_state :=
  let line := strip is_blank raw in
  let '(general, time) :=
    if str_startswith "general" line then (true, in_time st)
    else if str_startswith "time" line then (in_general st, true)
    else if str_startswith "}" line then (false, false)
    else (in_general st, in_time st) in
  cfg1 ← (if general && str_contains "=" line
          then assign_general line (current st) else Some (current st));
  cfg2 ← (if time && str_contains "=" line
          then assign_time line cfg1 else Some cfg1);
  Some {| in_time := time; in_general := general; current := cfg2 |}.

Fixpoint reader_loop (st : reader_state) (lines : list string)
  : option reader_state :=
  match lines with
  | [] => Some st
  | raw :: rest => st' ← reader_step st raw; reader_loop st' rest
  end.

Definition i3status_config_reader (lines : list string)
  : option (list (string * value)) :=
  st ← reader_loop {| in_time := false; in_general := false; current := config |}
                   lines;
  Some (current st).


End reader.
End Config.

(** ** The thread that runs i3status

    The pipe is the list of the lines that i3status still has to write;
    [readline] on an exhausted pipe gives the empty string.  [kill n] is
    the value of the flag that [stop] sets, as the [n]-th test of the
    [while] reads it. *)

Module I3status.
Import Py.

Record thread : Type := {
  queue : list string;
  init : bool;
  started : bool
}.

Definition readline (pipe : list string) : string * list string :=
  match pipe with
  | [] => (EmptyString, [])
  | line :: rest => (line, rest)
  end.

Definition put (line : string) (t : thread) : thread :=
  {| queue := queue t ++ [line]; init := init t; started := started t |}.

(** The two tests on a line that was queued. *)
Definition classify (line : string) (t : thread) : thread :=
  if (1 <? String.length line)%nat && str_startswith "[" line then
    {| queue := queue t; init := false; started := started t |}
  else if str_startswith ",[" line then
    {| queue := queue t; init := init t; started := true |}
  else t.

Fixpoint run_loop (kill : nat -> bool) (n : nat) (pipe : list string)
    (t : thread) : thread :=
  if kill n then t
  else match pipe with
       | [] => t
       | line :: rest =>
           if (0 <? String.length line)%nat
           then run_loop kill (S n) rest (classify line (put line t))
           else t
       end.

Definition run (kill : nat -> bool) (pipe : list string) : thread :=
  let (first, pipe1) := readline pipe in
  let (second, pipe2) := readline pipe1 in
  run_loop kill 0%nat pipe2
    (put second (put first {| queue := []; init := true; started := false |})).

End I3status.

(** ** [load_from_file] and the discovery of the plugins in [main] *)

Module Loader.
Import Py PyStr.

(** [os.path.split(p)[-1]]: what follows the last slash. *)
Definition basename (p : string) : string :=
  match rfind "/" p with
  | Some i => str_drop (S i) p
  | None => p
  end.

(** [os.path.splitext(p)] for a name without a slash: the extension starts
    at the last dot, unless only dots come before it. *)
Definition splitext (p : string) : string * string :=
  match rfind "." p with
  | Some i =>
      if all_chars (Ascii.eqb ".") (str_take i p) then (p, EmptyString)
      else (str_take i p, str_drop i p)
  | None => (p, EmptyString)
  end.

(** An instance of a class [Py3status]: the names that [dir] lists and the
    truth value of the instance. *)
Record instance : Type := {
  dir : list string;
  truthy : bool
}.

Section loader.
(** [imp.load_source(mod_name, filepath)] followed by the instantiation of
    [Py3status]: [None] where either raises, [Some None] for a module
    without the class. *)
Variable load_source : string -> string -> option (option instance).

Definition load_from_file (filepath : string)
  : option (string * option instance) :=
  let (mod_name, file_ext) := splitext (basename filepath) in
  if String.eqb (lower file_ext) ".py" then
    inst ← load_source mod_name filepath; Some (mod_name, inst)
  else Some (mod_name, None).

(** [not method.startswith('__')]. *)
Definition is_method (method : string) : bool :=
  negb (str_startswith "__" method).

(** The body of the loop over [os.listdir(INCLUDE_PATH)]. *)
Definition register (include_path : string)
    (classes : gmap string (list string)) (file_name : string)
  : option (gmap string (list string)) :=
  '(module, class_inst) ← load_from_file (include_path +:+ file_name);
  match class_inst with
  | Some inst =>
      if negb (String.eqb module EmptyString) && truthy inst
      then Some (<[file_name := filter (fun m => is_method m = true) (dir inst)]> classes)
      else Some classes
  | None => Some classes
  end.

Fixpoint register_all (include_path : string)
    (classes : gmap string (list string)) (listing : list string)
  : option (gmap string (list string)) :=
  match listing with
  | [] => Some classes
  | file_name :: rest =>
      classes' ← register include_path classes file_name;
      register_all include_path classes' rest
  end.

(** [USER_CLASSES] as [main] fills it; [None] where an exception leaves
    the [try] (exit status 2). *)
Definition discover (isdir : bool) (include_path : string)
    (listing : list string) : option (gmap string (list string)) :=
  if isdir then register_all include_path ∅ listing else Some ∅.

End loader.
End Loader.

(** ** The main loop over a sequence of events *)

Module Main.
Import Py Relay.

(** [read_line]: the line read from stdin, stripped, or the exit status of
    [sys.exit]: 3 for an empty line and for the end of the input, 0 after a
    keyboard interrupt ([None] for the input). *)
Definition read_line (input : option string) : Z + string :=
  match input with
  | None => inl 0%Z
  | Some raw =>
      let line := PyStr.strip PyStr.is_space raw in
      if String.eqb line EmptyString then inl 3%Z else inr line
  end.

(** A result that the lookup of [inject] can read: a dict holds
    [cached_until]. *)
Definition stamped (result : value) : bool :=
  match result with
  | VDict d => dict_has "cached_until" d
  | _ => true
  end.

Definition entry_stamped (cache : gmap string (value * value))
    (my_method : string) : Prop :=
  ∃ index result,
    cache !! my_method = Some (index, result) ∧ stamped result = true.

(** [item.keys()] of a segment. *)
Definition keys (item : value) : list string :=
  match item with
  | VDict d => map fst d
  | _ => []
  end.

(** The name of a segment marks it as a clock. *)
Definition is_clock_item (item : value) : bool :=
  match getitem item "name" with
  | Ok name => is_clock name
  | Raise _ => false
  end.

Section main.
Context (E : Env) (G : globals).

(** [while True] for the events that the iterations meet, as far as they
    are given: the loop is left by [break] or by [sys.exit]. *)
Fixpoint main_loop (events : list event) (ls : loop_state E) : step E :=
  match events with
  | [] => Continue ls
  | ev :: rest =>
      match main_loop_body E G ev ls with
      | Continue ls' => main_loop rest ls'
      | stop => stop
      end
  end.

Definition state_of (st : step E) : loop_state E :=
  match st with
  | Continue ls | Break ls | Exit _ ls => ls
  end.

(** What [process_line] does to a decoded tick between [loads] and
    [dumps]. *)
Definition relayed (delta : Z) (j : value) (s : state E) : value * state E :=
  let (j1, s1) :=
    if DISABLE_TRANSFORM G then (j, s) else transform E G j delta s in
  inject E G j1 s1.

(** The text that [process_line] decodes: the line without its leading
    comma. *)
Definition payload (line : string) : string :=
  if str_startswith "," line then str_drop 1 line else line.

End main.

Arguments state_of {E} st.

End Main.

(** ** A fragment of [datetime] for the examples

    Naive datetimes are seconds since 1970-01-01 00:00:00 in the proleptic
    Gregorian calendar, for the years 1 to 9999.  The format directives
    covered are [%Y], [%m], [%d], [%H], [%M], [%S] and [%%], with fields of
    fixed width: this agrees with CPython on the texts that [strftime]
    writes for the years 1000 to 9999. *)

Module PyTime.

Record fields : Type := {
  year : Z; month : Z; day : Z; hour : Z; minute : Z; second : Z
}.

Definition days_from_civil (y m d : Z) : Z :=
  let y' := if (m <=? 2)%Z then y - 1 else y in
  let era := y' / 400 in
  let yoe := y' - era * 400 in
  let doy := (153 * (if (2 <? m)%Z then m - 3 else m + 9) + 2) / 5 + d - 1 in
  let doe := yoe * 365 + yoe / 4 - yoe / 100 + doy in
  era * 146097 + doe - 719468.

Definition civil_from_days (z : Z) : Z * Z * Z :=
  let z' := z + 719468 in
  let era := z' / 146097 in
  let doe := z' - era * 146097 in
  let yoe := (doe - doe / 1460 + doe / 36524 - doe / 146096) / 365 in
  let doy := doe - (365 * yoe + yoe / 4 - yoe / 100) in
  let mp := (5 * doy + 2) / 153 in
  let d := doy - (153 * mp + 2) / 5 + 1 in
  let m := if (mp <? 10)%Z then mp + 3 else mp - 9 in
  (if (m <=? 2)%Z then yoe + era * 400 + 1 else yoe + era * 400, m, d).

Definition is_leap (y : Z) : bool :=
  ((y mod 4 =? 0) && (negb (y mod 100 =? 0) || (y mod 400 =? 0)))%Z.

Definition days_in_month (y m : Z) : Z :=
  if (m =? 2)%Z then (if is_leap y then 29 else 28)
  else if ((m =? 4) || (m =? 6) || (m =? 9) || (m =? 11))%Z then 30
  else 31.

Definition min_seconds : Z := days_from_civil 1 1 1 * 86400.
Definition max_seconds : Z := days_from_civil 10000 1 1 * 86400 - 1.

Definition of_fields (f : fields) : option Z :=
  if ((1 <=? year f) && (year f <=? 9999) && (1 <=? month f) && (month f <=? 12)
      && (1 <=? day f) && (day f <=? days_in_month (year f) (month f))
      && (0 <=? hour f) && (hour f <? 24) && (0 <=? minute f) && (minute f <? 60)
      && (0 <=? second f) && (second f <? 60))%Z
  then Some (days_from_civil (year f) (month f) (day f) * 86400
             + hour f * 3600 + minute f * 60 + second f)
  else None.

Definition to_fields (t : Z) : fields :=
  let days := t / 86400 in
  let secs := t mod 86400 in
  let '(y, m, d) := civil_from_days days in
  {| year := y; month := m; day := d;
     hour := secs / 3600; minute := (secs mod 3600) / 60; second := secs mod 60 |}.

Definition digit_char (n : Z) : ascii := ascii_of_N (48 + Z.to_N (n mod 10)).

Fixpoint pad (width : nat) (n : Z) (acc : string) : string :=
  match width with
  | O => acc
  | S w => pad w (n / 10) (String (digit_char n) acc)
  end.

Definition digit_val (a : ascii) : option Z :=
  let n := N_of_ascii a in
  if ((48 <=? n) && (n <=? 57))%N then Some (Z.of_N n - 48) else None.

Fixpoint read_num (width : nat) (acc : Z) (text : string) : option (Z * string) :=
  match width with
  | O => Some (acc, text)
  | S w =>
      match text with
      | String a text' =>
          match digit_val a with
          | Some v => read_num w (acc * 10 + v) text'
          | None => None
          end
      | EmptyString => None
      end
  end.

Definition set_field (c : ascii) (n : Z) (f : fields) : option fields :=
  if Ascii.eqb c "Y" then
    Some {| year := n; month := month f; day := day f;
            hour := hour f; minute := minute f; second := second f |}
  else if Ascii.eqb c "m" then
    Some {| year := year f; month := n; day := day f;
            hour := hour f; minute := minute f; second := second f |}
  else if Ascii.eqb c "d" then
    Some {| year := year f; month := month f; day := n;
            hour := hour f; minute := minute f; second := second f |}
  else if Ascii.eqb c "H" then
    Some {| year := year f; month := month f; day := day f;
            hour := n; minute := minute f; second := second f |}
  else if Ascii.eqb c "M" then
    Some {| year := year f; month := month f; day := day f;
            hour := hour f; minute := n; second := second f |}
  else if Ascii.eqb c "S" then
    Some {| year := year f; month := month f; day := day f;
            hour := hour f; minute := minute f; second := n |}
  else None.

Definition get_field (c : ascii) (f : fields) : option (nat * Z) :=
  if Ascii.eqb c "Y" then Some (4%nat, year f)
  else if Ascii.eqb c "m" then Some (2%nat, month f)
  else if Ascii.eqb c "d" then Some (2%nat, day f)
  else if Ascii.eqb c "H" then Some (2%nat, hour f)
  else if Ascii.eqb c "M" then Some (2%nat, minute f)
  else if Ascii.eqb c "S" then Some (2%nat, second f)
  else None.

Fixpoint parse_format (fmt text : string) (f : fields) : option fields :=
  match fmt with
  | EmptyString =>
      match text with
      | EmptyString => Some f
      | String _ _ => None
      end
  | String a fmt' =>
      if Ascii.eqb a "%" then
        match fmt' with
        | String c fmt'' =>
            if Ascii.eqb c "%" then
              match text with
              | String b text' =>
                  if Ascii.eqb b "%" then parse_format fmt'' text' f else None
              | EmptyString => None
              end
            else
              match get_field c f with
              | Some (width, _) =>
                  match read_num width 0 text with
                  | Some (n, text') =>
                      match set_field c n f with
                      | Some f' => parse_format fmt'' text' f'
                      | None => None
                      end
                  | None => None
                  end
              | None => None
              end
        | EmptyString => None
        end
      else
        match text with
        | String b text' =>
            if Ascii.eqb a b then parse_format fmt' text' f else None
        | EmptyString => None
        end
  end.

Fixpoint print_format (fmt : string) (f : fields) : option string :=
  match fmt with
  | EmptyString => Some EmptyString
  | String a fmt' =>
      if Ascii.eqb a "%" then
        match fmt' with
        | String c fmt'' =>
            if Ascii.eqb c "%" then
              match print_format fmt'' f with
              | Some r => Some (String "%" r)
              | None => None
              end
            else
              match get_field c f with
              | Some (width, n) =>
                  match print_format fmt'' f with
                  | Some r => Some (pad width n r)
                  | None => None
                  end
              | None => None
              end
        | EmptyString => None
        end
      else
        match print_format fmt' f with
        | Some r => Some (String a r)
        | None => None
        end
  end.

(** A field absent from the format takes its value from 1900-01-01
    00:00:00. *)
Definition epoch_fields : fields :=
  {| year := 1900; month := 1; day := 1; hour := 0; minute := 0; second := 0 |}.

Definition strptime (text fmt : string) : option Z :=
  match parse_format fmt text epoch_fields with
  | Some f => of_fields f
  | None => None
  end.

Definition add_seconds (t delta : Z) : option Z :=
  if ((min_seconds <=? t + delta) && (t + delta <=? max_seconds))%Z
  then Some (t + delta) else None.

Definition strftime (t : Z) (fmt : string) : option string :=
  print_format fmt (to_fields t).

End PyTime.

(** ** Plugins, clocks and lines for the examples *)

Module Demo.
Import Py Relay.

(** Writes a line of the protocol with apostrophes standing for the double
    quotes of JSON. *)
Fixpoint dq (s : string) : string :=
  match s with
  | EmptyString => EmptyString
  | String a s' =>
      String (if Ascii.eqb a "'" then Json.quote else a) (dq s')
  end.

Definition nl (s : string) : string := s +:+ String newline EmptyString.

Definition battery : value :=
  VDict [("name", VStr "battery"); ("full_text", VStr "87%")].

Definition weather : value :=
  VDict [("name", VStr "weather"); ("full_text", VStr "sunny");
         ("cached_until", VNum 1500)].

(** The plugin methods, by name: [battery] and [weather] follow the
    contract, [nameless] returns a dict without a name, [text] returns a
    string, [boom] raises.  The hidden state counts the calls. *)
Definition demo_call (my_class my_method : string) (j : value)
    (config : i3status_config) (w : nat) : outcome * nat :=
  (if String.eqb my_method "battery" then Returns (VNum 0) battery
   else if String.eqb my_method "weather" then Returns (VNum 0) weather
   else if String.eqb my_method "nameless" then
     Returns (VNum 1) (VDict [("full_text", VStr "x")])
   else if String.eqb my_method "text" then Returns (VNum 0) (VStr "oops")
   else Raises,
   S w).

(** A clock that advances by one unit at each reading, from 1000. *)
Definition env : Env :=
  {| world := nat;
     call := demo_call;
     clock := fun n => 1000 + Z.of_nat n;
     datetime := Z;
     strptime := PyTime.strptime;
     add_seconds := PyTime.add_seconds;
     strftime := PyTime.strftime |}.

Definition init (cache : gmap string (value * value)) : state env :=
  Build_state env cache 0%nat 0%nat [] [] [].

Definition no_plugins : globals := default_globals ∅.

Definition one_plugin (my_method : string) : globals :=
  default_globals {[ "a.py" := [my_method] ]}.

Definition same_name : globals :=
  default_globals {[ "a.py" := ["battery"]; "b.py" := ["battery"] ]}.

Definition two_plugins : globals :=
  default_globals {[ "b.py" := ["weather"]; "a.py" := ["battery"] ]}.

(** Cache entries and ticks. *)
Definition cached_battery : value :=
  VDict [("name", VStr "battery"); ("full_text", VStr "87%");
         ("cached_until", VNum 1060)].

Definition far_cache : gmap string (value * value) :=
  {[ "battery" := (VNum 0, VDict [("name", VStr "battery");
                                  ("full_text", VStr "stale");
                                  ("cached_until", VNum 1000000)]) ]}.

Definition clock_item (name text : string) : value :=
  VDict [("name", VStr name); ("full_text", VStr text)].

Definition at_rest (cache : gmap string (value * value)) (l : line_var)
  : loop_state env :=
  {| line := l; forced := false; relay := init cache |}.

End Demo.

(** ** A config file, a directory of plugins and an output of i3status for
    the examples *)

Module Samples.
Import Py Relay Demo.

(** The fragment of [eval] that a config file needs: the three constants,
    integers and strings in double quotes. *)
Definition literal_eval (src : string) : option value :=
  if String.eqb src "True" then Some (VBool true)
  else if String.eqb src "False" then Some (VBool false)
  else if String.eqb src "None" then Some VNone
  else match Json.loads src with
       | Some (VNum n) => Some (VNum n)
       | Some (VStr s) => Some (VStr s)
       | _ => None
       end.

Definition sample_conf : list string :=
  [nl "general {";
   nl (dq "        output_format = 'i3bar'");
   nl "        colors = true";
   nl "        interval = 5";
   nl "}";
   nl EmptyString;
   nl (dq "order += 'time'");
   nl "time {";
   nl (dq "        format = '%H:%M'");
   nl "}"].


(** A directory with one plugin, one module without the class and two
    files that are not modules. *)
Definition sample_source (mod_name filepath : string)
  : option (option Loader.instance) :=
  if String.eqb mod_name "battery" then
    Some (Some {| Loader.dir := ["__class__"; "__init__"; "_helper"; "battery"];
                  Loader.truthy := true |})
  else if String.eqb mod_name "empty" then Some None
  else None.

Definition sample_listing : list string :=
  ["notes.txt"; "battery.PY"; ".py"; "empty.py"].

Definition sample_classes : gmap string (list string) :=
  {[ "battery.PY" := ["_helper"; "battery"] ]}.



End Samples.


(** * Properties *)

Module Facts.
Import Py Relay.

(** ** Dicts and lists *)

Lemma dict_get_set_eq k v d : dict_get k (dict_set k v d) = Some v.
Proof.
  induction d as [|[k' v'] d IH]; simpl.
  - by rewrite String.eqb_refl.
  - destruct (String.eqb k k') eqn:Hk; simpl; rewrite Hk; [done | exact IH].
Qed.

Lemma dict_get_set_ne k k' v d :
  k ≠ k' → dict_get k (dict_set k' v d) = dict_get k d.
Proof.
  intros Hne. induction d as [|[k0 v0] d IH]; simpl.
  - apply String.eqb_neq in Hne. by rewrite Hne.
  - destruct (String.eqb k' k0) eqn:Hk; simpl.
    + apply String.eqb_eq in Hk. subst k0.
      apply String.eqb_neq in Hne. by rewrite Hne.
    + by rewrite IH.
Qed.

Lemma dict_set_set k v1 v2 d :
  dict_set k v2 (dict_set k v1 d) = dict_set k v2 d.
Proof.
  induction d as [|[k0 v0] d IH]; simpl.
  - by rewrite String.eqb_refl.
  - destruct (String.eqb k k0) eqn:Hk; simpl; rewrite Hk; [done | by rewrite IH].
Qed.

(** Replacing the value of a present key commutes with setting another
    key: the present key keeps its position. *)
Lemma dict_set_comm k1 k2 v1 v2 d :
  k1 ≠ k2 → dict_has k1 d = true →
  dict_set k1 v1 (dict_set k2 v2 d) = dict_set k2 v2 (dict_set k1 v1 d).
Proof.
  intros Hne. unfold dict_has.
  induction d as [|[k0 v0] d IH]; simpl; [done|].
  destruct (String.eqb k1 k0) eqn:H1, (String.eqb k2 k0) eqn:H2; simpl;
    rewrite ?H1, ?H2; try done.
  - apply String.eqb_eq in H1, H2. congruence.
  - intros Hd. by rewrite IH.
Qed.

Lemma dict_has_set_ne k k' v d :
  k ≠ k' → dict_has k (dict_set k' v d) = dict_has k d.
Proof. intros. unfold dict_has. by rewrite dict_get_set_ne. Qed.

Lemma dict_has_set_eq k v d : dict_has k (dict_set k v d) = true.
Proof. unfold dict_has. by rewrite dict_get_set_eq. Qed.


Lemma insert_pos_in_range (i : Z) (n : nat) :
  (0 ≤ i ≤ Z.of_nat n)%Z → insert_pos i n = Z.to_nat i.
Proof.
  intros [H0 Hn]. unfold insert_pos.
  destruct (i <? 0)%Z eqn:Hi; lia.
Qed.


(** Inserting at a position that lies in the list splits it there. *)
Lemma list_insert_in_range {A} (i : Z) (x : A) l :
  (0 ≤ i ≤ Z.of_nat (length l))%Z →
  list_insert i x l = take (Z.to_nat i) l ++ x :: drop (Z.to_nat i) l.
Proof. intros. unfold list_insert. by rewrite insert_pos_in_range. Qed.

Lemma list_insert_zero {A} (x : A) l : list_insert 0 x l = x :: l.
Proof.
  unfold list_insert, insert_pos. simpl. by destruct l.
Qed.

Lemma list_insert_middle {A} (i : Z) (x : A) l1 mid l2 :
  (0 ≤ i)%Z → length l1 = Z.to_nat i →
  list_insert i x (l1 ++ mid ++ l2) = l1 ++ x :: mid ++ l2.
Proof.
  intros Hi Hlen. unfold list_insert, insert_pos.
  destruct (Z.ltb_spec i 0); [lia|].
  rewrite length_app, <- Hlen, Nat.min_l by lia.
  by rewrite take_app_length, drop_app_length.
Qed.

(** ** The order of [sorted] on strings *)

#[global] Instance str_le_total : Total str_le.
Proof. intros a b. apply String.leb_total. Qed.

Lemma string_compare_trans a b c :
  String.compare a b ≠ Gt → String.compare b c ≠ Gt → String.compare a c ≠ Gt.
Proof.
  revert b c. induction a as [|x a IH]; intros [|y b] [|z c]; simpl; try done.
  unfold Ascii.compare.
  destruct (N.compare_spec (N_of_ascii x) (N_of_ascii y)),
           (N.compare_spec (N_of_ascii y) (N_of_ascii z)),
           (N.compare_spec (N_of_ascii x) (N_of_ascii z));
    try lia; try done.
  apply IH.
Qed.

#[global] Instance str_le_trans : Transitive str_le.
Proof.
  intros a b c. unfold str_le, String.leb.
  pose proof (string_compare_trans a b c) as H.
  destruct (String.compare a b), (String.compare b c), (String.compare a c);
    try done; intros _ _; exfalso; by apply H.
Qed.

#[global] Instance str_le_antisymm : AntiSymm (=) str_le.
Proof. intros a b. apply String.leb_antisym. Qed.

(** ** The cache of [inject] *)

Section inject_facts.
Context (E : Env) (G : globals).
Implicit Types (s : state E) (j index result : value) (m c : string).

(** What the [finally] block leaves in [j] when the insertion succeeds. *)
Lemma store_and_insert_cache m index result pending j s :
  USER_CACHE (store_and_insert E m index result pending j s).2
  = <[m := (index, result)]> (USER_CACHE s).
Proof.
  unfold store_and_insert.
  destruct (insert j index result); [destruct pending|]; reflexivity.
Qed.

Lemma store_and_insert_invocations m index result pending j s :
  invocations (store_and_insert E m index result pending j s).2 = invocations s.
Proof.
  unfold store_and_insert.
  destruct (insert j index result); [destruct pending|]; reflexivity.
Qed.


Lemma store_and_insert_time_calls m index result pending j s :
  time_calls (store_and_insert E m index result pending j s).2 = time_calls s.
Proof.
  unfold store_and_insert.
  destruct (insert j index result); [destruct pending|]; reflexivity.
Qed.

Lemma store_and_insert_tick m index result pending j j' s :
  insert j index result = Ok j' →
  (store_and_insert E m index result pending j s).1 = j'.
Proof.
  intros Hins. unfold store_and_insert. rewrite Hins.
  by destruct pending.
Qed.

(** A cache entry that is a dict with a numeric [cached_until]: the inner
    [try] ends without an exception exactly when the clock has not passed
    it. *)
Lemma cache_lookup_entry m s index d cached_until :
  USER_CACHE s !! m = Some (index, VDict d) →
  dict_get "cached_until" d = Some (VNum cached_until) →
  cache_lookup E m s
  = (if (cached_until <? clock E (time_calls s))%Z then Miss
     else Hit index (VDict d), (time E s).2).
Proof.
  intros Hm Hd. unfold cache_lookup. rewrite Hm. simpl. rewrite Hd. simpl.
  by destruct (cached_until <? clock E (time_calls s))%Z.
Qed.

Lemma cache_lookup_absent m s :
  USER_CACHE s !! m = None → cache_lookup E m s = (Miss, s).
Proof. intros Hm. unfold cache_lookup. by rewrite Hm. Qed.

Lemma execute_invocations c m j s :
  invocations (execute E G c m j s).2 = invocations s ++ [(c, m)].
Proof.
  unfold execute, invoke.
  destruct (call E c m j (I3STATUS_CONFIG G) (plugins s)) as [out w].
  destruct out as [index result|]; simpl.
  - destruct (contains "cached_until" result) as [[|]|]; simpl; try done.
    by destruct (setitem result _ _).
  - reflexivity.
Qed.

Lemma inject_method_hit c m j s index d cached_until :
  USER_CACHE s !! m = Some (index, VDict d) →
  dict_get "cached_until" d = Some (VNum cached_until) →
  (clock E (time_calls s) ≤ cached_until)%Z →
  inject_method E G c m j s
  = store_and_insert E m index (VDict d) None j (time E s).2.
Proof.
  intros Hm Hd Hnow. unfold inject_method.
  rewrite (cache_lookup_entry _ _ _ _ _ Hm Hd).
  destruct (Z.ltb_spec cached_until (clock E (time_calls s))); [lia | done].
Qed.




(** *** What [execute] leaves behind *)

Lemma cache_lookup_state m s p s1 :
  cache_lookup E m s = (p, s1) → s1 = s ∨ s1 = (time E s).2.
Proof.
  unfold cache_lookup. destruct (USER_CACHE s !! m) as [[index result]|].
  - simpl. destruct (getitem result "cached_until") as [v|[]];
      try (intros [= <- <-]; by right).
    destruct (num_gt _ v) as [[|]|]; intros [= <- <-]; by right.
  - intros [= <- <-]. by left.
Qed.

Lemma cache_lookup_cache m s p s1 :
  cache_lookup E m s = (p, s1) →
  USER_CACHE s1 = USER_CACHE s ∧ invocations s1 = invocations s ∧
  syslog s1 = syslog s ∧ plugins s1 = plugins s ∧ stdout s1 = stdout s.
Proof. intros H. by destruct (cache_lookup_state _ _ _ _ H) as [-> | ->]. Qed.

Lemma validate_dict_set_cached_until v d :
  validate (VDict (dict_set "cached_until" v d)) = validate (VDict d).
Proof.
  unfold validate. simpl. by rewrite !dict_has_set_ne.
Qed.

Lemma validate_valid result :
  validate result = None ↔
  ∃ d, result = VDict d ∧ dict_has "full_text" d = true ∧ dict_has "name" d = true.
Proof.
  split.
  - destruct result; try discriminate. unfold validate. simpl.
    destruct (dict_has "full_text" d) eqn:Hf; [|discriminate].
    destruct (dict_has "name" d) eqn:Hn; [|discriminate]. eauto.
  - intros (d & -> & Hf & Hn). unfold validate. simpl. by rewrite Hf, Hn.
Qed.

Lemma execute_returns c m j s index result w :
  call E c m j (I3STATUS_CONFIG G) (plugins s) = (Returns index result, w) →
  ∃ pending s2,
    execute E G c m j s
    = (index, with_cached_until G (clock E (time_calls s)) result, pending, s2) ∧
    USER_CACHE s2 = USER_CACHE s ∧ syslog s2 = syslog s ∧
    invocations s2 = invocations s ++ [(c, m)] ∧ plugins s2 = w ∧
    (pending = None ↔ validate result = None).
Proof.
  intros Hcall. unfold execute, invoke. rewrite Hcall.
  destruct result as [| | | | |d]; simpl;
    try (eexists _, _; split; [reflexivity | by repeat split]).
  - (* a string *)
    destruct (str_contains "cached_until" s0); simpl;
      eexists _, _; (split; [reflexivity | by repeat split]).
  - (* a list *)
    destruct (existsb (is_str "cached_until") l); simpl;
      eexists _, _; (split; [reflexivity | by repeat split]).
  - (* a dict *)
    destruct (dict_has "cached_until" d) eqn:Hd; simpl;
      eexists _, _; (split; [reflexivity | repeat split; try done]).
    + by rewrite validate_dict_set_cached_until.
    + by rewrite validate_dict_set_cached_until.
Qed.

Lemma execute_raises c m j s w :
  call E c m j (I3STATUS_CONFIG G) (plugins s) = (Raises, w) →
  ∃ s2,
    execute E G c m j s
    = (VNum 0,
       VDict [("name", VStr EmptyString); ("full_text", VStr EmptyString);
              ("cached_until", VNum (clock E (time_calls s) + CACHE_TIMEOUT G))],
       None, s2) ∧
    USER_CACHE s2 = USER_CACHE s ∧ syslog s2 = syslog s ++ [MethodFailed m] ∧
    invocations s2 = invocations s ++ [(c, m)] ∧ plugins s2 = w.
Proof.
  intros Hcall. unfold execute, invoke. rewrite Hcall. simpl.
  eexists. split; [reflexivity | by repeat split].
Qed.

Lemma execute_cache c m j s :
  USER_CACHE (execute E G c m j s).2 = USER_CACHE s.
Proof.
  destruct (call E c m j (I3STATUS_CONFIG G) (plugins s)) as [[index result|] w] eqn:Hcall.
  - destruct (execute_returns _ _ _ _ _ _ _ Hcall) as (p & s2 & -> & Hc & _). done.
  - destruct (execute_raises _ _ _ _ _ Hcall) as (s2 & -> & Hc & _). done.
Qed.

Lemma inject_method_miss c m j s s1 :
  cache_lookup E m s = (Miss, s1) →
  inject_method E G c m j s
  = let '(index, result, pending, s2) := execute E G c m j s1 in
    store_and_insert E m index result pending j s2.
Proof. intros H. unfold inject_method. by rewrite H. Qed.

(** Every iteration writes the entry under the bare method name. *)
Lemma inject_method_cache_key c m j s :
  ∃ entry, USER_CACHE (inject_method E G c m j s).2 = <[m := entry]> (USER_CACHE s).
Proof.
  unfold inject_method.
  destruct (cache_lookup E m s) as [p s1] eqn:Hp.
  destruct (cache_lookup_cache _ _ _ _ Hp) as (Hc & _).
  destruct p as [index result|index result e|].
  - eexists. by rewrite store_and_insert_cache, Hc.
  - eexists. by rewrite store_and_insert_cache, Hc.
  - pose proof (execute_cache c m j s1) as Hex.
    destruct (execute E G c m j s1) as [[[index result] pending] s2].
    eexists. rewrite store_and_insert_cache. simpl in Hex. by rewrite Hex, Hc.
Qed.


(** C4: a method that raises is replaced by the pair of index 0 and the
    placeholder, whose [cached_until] is defaulted to the clock reading plus
    [CACHE_TIMEOUT] (60 unless the command line says otherwise); the pair is
    cached under the method name and spliced in at the front.  While the
    clock has not passed that [cached_until], a further iteration for the
    method does not call it and splices the same placeholder. *)
Theorem inject_method_raises c m l s :
  let s1 := (cache_lookup E m s).2 in
  (cache_lookup E m s).1 = Miss →
  (call E c m (VList l) (I3STATUS_CONFIG G) (plugins s1)).1 = Raises →
  let cached_until := (clock E (time_calls s1) + CACHE_TIMEOUT G)%Z in
  let held :=
    VDict [("name", VStr EmptyString); ("full_text", VStr EmptyString);
           ("cached_until", VNum cached_until)] in
  let js' := inject_method E G c m (VList l) s in
  js'.1 = VList (held :: l) ∧
  USER_CACHE js'.2 = <[m := (VNum 0, held)]> (USER_CACHE s) ∧
  syslog js'.2 = syslog s ++ [MethodFailed m] ∧
  invocations js'.2 = invocations s ++ [(c, m)] ∧
  CACHE_TIMEOUT (default_globals (USER_CLASSES G)) = 60%Z ∧
  ∀ c2 l2 (s2 : state E),
    USER_CACHE s2 !! m = Some (VNum 0, held) →
    (clock E (time_calls s2) ≤ cached_until)%Z →
    let js2 := inject_method E G c2 m (VList l2) s2 in
    js2.1 = VList (held :: l2) ∧
    invocations js2.2 = invocations s2 ∧
    syslog js2.2 = syslog s2 ∧
    USER_CACHE js2.2 = USER_CACHE s2.
Proof.
  intros s1 Hmiss1 Hcall1 cached_until held js'. subst js'.
  assert (cache_lookup E m s = (Miss, s1)) as Hmiss.
  { subst s1. rewrite <- Hmiss1. apply surjective_pairing. }
  destruct (call E c m (VList l) (I3STATUS_CONFIG G) (plugins s1))
    as [out w] eqn:Hcall.
  simpl in Hcall1. subst out.
  rewrite (inject_method_miss _ _ _ _ _ Hmiss).
  destruct (cache_lookup_cache _ _ _ _ Hmiss) as (Hc & Hinv & Hlog & _).
  destruct (execute_raises _ _ _ _ _ Hcall) as (s2 & -> & Hc2 & Hlog2 & Hinv2 & _).
  fold cached_until. fold held.
  rewrite store_and_insert_cache, Hc2, Hc.
  unfold store_and_insert at 1 2 3. simpl. rewrite list_insert_zero.
  rewrite Hlog2, Hlog, Hinv2, Hinv.
  do 5 (split; [done|]).
  intros c2 l2 s3 Hentry Hnow.
  rewrite (inject_method_hit c2 m (VList l2) s3 (VNum 0) _ cached_until Hentry);
    [|done|done].
  rewrite store_and_insert_invocations, store_and_insert_cache.
  unfold store_and_insert. simpl. rewrite list_insert_zero.
  repeat split; try done. by apply insert_id.
Qed.



(** *** The order of the iterations *)

Lemma inject_schedule j s :
  inject E G j s = foldl (inject_step E G) (j, s) (schedule G).
Proof.
  unfold inject, schedule. generalize (j, s).
  induction (sorted_keys (USER_CLASSES G)) as [|c cs IH]; intros js; [done|].
  simpl. rewrite foldl_app, <- IH. f_equal.
  unfold inject_class. destruct (USER_CLASSES G !! c) as [ms|]; simpl; [|done].
  unfold inject_methods. revert js.
  induction ms as [|m ms IHms]; intros js; simpl; [done | apply IHms].
Qed.

Lemma sorted_keys_Permutation {A} (d : gmap string A) :
  sorted_keys d ≡ₚ (map_to_list d).*1.
Proof. unfold sorted_keys. apply merge_sort_Permutation. Qed.

Lemma elem_of_sorted_keys {A} (d : gmap string A) c :
  c ∈ sorted_keys d ↔ is_Some (d !! c).
Proof.
  rewrite sorted_keys_Permutation, list_elem_of_fmap. split.
  - intros ([k v] & -> & Hkv). apply elem_of_map_to_list in Hkv. eauto.
  - intros [v Hv]. exists (c, v). split; [done|]. by apply elem_of_map_to_list.
Qed.

Lemma NoDup_sorted_keys {A} (d : gmap string A) : NoDup (sorted_keys d).
Proof. rewrite sorted_keys_Permutation. apply NoDup_fst_map_to_list. Qed.

Lemma elem_of_schedule c m : (c, m) ∈ schedule G ↔ registered G c m.
Proof.
  unfold schedule, registered. rewrite list_elem_of_bind. split.
  - intros (c' & Hm & Hc). apply list_elem_of_fmap in Hm as (m' & [= -> ->] & Hm).
    apply elem_of_sorted_keys in Hc as [ms Hms]. rewrite Hms in Hm. eauto.
  - intros (ms & Hms & Hm). exists c. split.
    + rewrite Hms. simpl. apply list_elem_of_fmap. eauto.
    + apply elem_of_sorted_keys. eauto.
Qed.

Lemma inject_method_absent c m j s :
  USER_CACHE s !! m = None →
  invocations (inject_method E G c m j s).2 = invocations s ++ [(c, m)].
Proof.
  intros Habsent.
  rewrite (inject_method_miss _ _ _ _ _ (cache_lookup_absent m s Habsent)).
  pose proof (execute_invocations c m j s) as Hex.
  destruct (execute E G c m j s) as [[[index result] pending] s2].
  by rewrite store_and_insert_invocations.
Qed.

(** With nothing cached under their names, methods with pairwise distinct
    names are all called, in the order of the iterations. *)
Lemma foldl_inject_step_absent sched js :
  NoDup sched.*2 →
  (∀ m, m ∈ sched.*2 → USER_CACHE js.2 !! m = None) →
  invocations (foldl (inject_step E G) js sched).2 = invocations js.2 ++ sched.
Proof.
  revert js. induction sched as [|[c m] sched IH]; intros js Hnd Habsent; simpl.
  - by rewrite app_nil_r.
  - apply NoDup_cons in Hnd as [Hm Hnd]. rewrite IH; [|done|].
    + unfold inject_step. simpl. rewrite inject_method_absent.
      * by rewrite <- app_assoc.
      * apply Habsent. left.
    + intros m' Hm'. unfold inject_step. simpl.
      destruct (inject_method_cache_key c m js.1 js.2) as [entry ->].
      rewrite lookup_insert_ne; [|by intros ->].
      apply Habsent. by right.
Qed.

(** A second call of [inject] while the clock has passed none of the
    entries calls no method and leaves the cache as it is. *)
Lemma foldl_inject_step_within sched js :
  (∀ c m, (c, m) ∈ sched → ∃ index d cached_until,
      USER_CACHE js.2 !! m = Some (index, VDict d) ∧
      dict_get "cached_until" d = Some (VNum cached_until) ∧
      ∀ n, (time_calls js.2 ≤ n)%nat → (clock E n ≤ cached_until)%Z) →
  invocations (foldl (inject_step E G) js sched).2 = invocations js.2 ∧
  USER_CACHE (foldl (inject_step E G) js sched).2 = USER_CACHE js.2.
Proof.
  revert js. induction sched as [|[c m] sched IH]; intros js Hall; simpl; [done|].
  destruct (Hall c m) as (index & d & cu & Hm & Hd & Hclock); [left|].
  assert (inject_step E G js (c, m)
          = store_and_insert E m index (VDict d) None js.1 (time E js.2).2) as Hstep.
  { unfold inject_step. simpl. apply (inject_method_hit c m _ _ _ _ cu); auto. }
  assert (USER_CACHE (inject_step E G js (c, m)).2 = USER_CACHE js.2) as Hc.
  { rewrite Hstep, store_and_insert_cache. simpl. by apply insert_id. }
  destruct (IH (inject_step E G js (c, m))) as [Hi Hc'].
  - intros c' m' Hin. destruct (Hall c' m') as (index' & d' & cu' & Hm' & Hd' & Hclock');
      [by right|].
    exists index', d', cu'. rewrite Hc. repeat split; try done.
    intros n Hn. apply Hclock'. rewrite Hstep, store_and_insert_time_calls in Hn.
    simpl in Hn. lia.
  - rewrite Hi, Hc', Hc, Hstep, store_and_insert_invocations. done.
Qed.

Lemma inject_within_ttl j s :
  (∀ c m, registered G c m → ∃ index d cached_until,
      USER_CACHE s !! m = Some (index, VDict d) ∧
      dict_get "cached_until" d = Some (VNum cached_until) ∧
      ∀ n, (time_calls s ≤ n)%nat → (clock E n ≤ cached_until)%Z) →
  invocations (inject E G j s).2 = invocations s ∧
  USER_CACHE (inject E G j s).2 = USER_CACHE s.
Proof.
  intros Hall. rewrite inject_schedule.
  apply (foldl_inject_step_within (schedule G) (j, s)).
  intros c m Hin. apply (Hall c m). by apply elem_of_schedule.
Qed.


(** C5, amended: the forced refresh leaves an empty cache whatever it held,
    and on an empty cache [inject] calls every registered method exactly
    once, provided no two registered methods have the same name. *)
Theorem inject_after_forced_refresh ls j (s : state E) :
  NoDup (schedule G).*2 →
  USER_CACHE s = ∅ →
  (∃ ls', main_loop_body E G SigUsr1 ls = Continue ls' ∧
          USER_CACHE (relay ls') = ∅) ∧
  invocations (inject E G j s).2 = invocations s ++ schedule G ∧
  NoDup (schedule G) ∧
  ∀ c m, registered G c m ↔ (c, m) ∈ schedule G.
Proof.
  intros Hnd Hempty. split; [|split; [|split]].
  - eexists. split; reflexivity.
  - rewrite inject_schedule.
    apply (foldl_inject_step_absent (schedule G) (j, s) Hnd).
    intros m _. simpl. by rewrite Hempty.
  - by apply (NoDup_fmap_1 snd).
  - intros c m. by rewrite elem_of_schedule.
Qed.

(** The segments that calls returning at one index leave in the tick: each
    call pushes the segments spliced before it to the right. *)
Lemma foldl_inject_step_same_index (i : Z) (seg : string → string → value)
    l sched mid s :
  (0 ≤ i ≤ Z.of_nat (length l))%Z →
  NoDup sched.*2 →
  (∀ m, m ∈ sched.*2 → USER_CACHE s !! m = None) →
  (∀ c m j w, (c, m) ∈ sched →
     (call E c m j (I3STATUS_CONFIG G) w).1 = Returns (VNum i) (seg c m)) →
  ∃ rs,
    (foldl (inject_step E G)
       (VList (take (Z.to_nat i) l ++ mid ++ drop (Z.to_nat i) l), s) sched).1
    = VList (take (Z.to_nat i) l ++ (reverse rs ++ mid) ++ drop (Z.to_nat i) l) ∧
    Forall2 (fun cm r => ∃ now, r = with_cached_until G now (seg cm.1 cm.2)) sched rs.
Proof.
  intros Hi. revert mid s.
  induction sched as [|[c m] sched IH]; intros mid s Hnd Habsent Hcall.
  - exists []. split; [done | constructor].
  - rewrite fmap_cons in Hnd. apply NoDup_cons in Hnd as [Hm Hnd]. simpl in Hm.
    set (j0 := VList (take (Z.to_nat i) l ++ mid ++ drop (Z.to_nat i) l)).
    destruct (call E c m j0 (I3STATUS_CONFIG G) (plugins s)) as [out w] eqn:Hout.
    pose proof (Hcall c m j0 (plugins s) ltac:(left)) as Hret.
    rewrite Hout in Hret. simpl in Hret. subst out.
    assert (USER_CACHE s !! m = None) as Hnone.
    { apply Habsent. rewrite fmap_cons. left. }
    set (r := with_cached_until G (clock E (time_calls s)) (seg c m)).
    assert ((inject_step E G (j0, s) (c, m)).1
            = VList (take (Z.to_nat i) l ++ (r :: mid) ++ drop (Z.to_nat i) l)) as Hj.
    { unfold inject_step. simpl.
      rewrite (inject_method_miss _ _ _ _ _ (cache_lookup_absent m s Hnone)).
      destruct (execute_returns _ _ _ _ _ _ _ Hout) as (pending & s2 & -> & _).
      fold r. apply store_and_insert_tick. unfold j0. simpl.
      rewrite list_insert_middle; [done | lia |].
      rewrite length_take. lia. }
    destruct (IH (r :: mid) (inject_step E G (j0, s) (c, m)).2 Hnd)
      as (rs & Hrs & Hall).
    + intros m' Hm'. unfold inject_step. simpl.
      destruct (inject_method_cache_key c m j0 s) as [entry ->].
      rewrite lookup_insert_ne; [|by intros ->].
      apply Habsent. rewrite fmap_cons. by right.
    + intros c' m' j w' Hin. apply Hcall. by right.
    + exists (r :: rs). split.
      * cbn [foldl]. rewrite <- Hj in Hrs. rewrite <- surjective_pairing in Hrs.
        rewrite Hrs, reverse_cons. f_equal. f_equal.
        by rewrite <- !app_assoc.
      * constructor; [by eexists | done].
Qed.

(** C9: [inject] visits the classes in the sorted order of their ids and,
    within a class, the methods in the order of the list [main] built;
    when all methods return the same index, each splice pushes the earlier
    ones to the right, so that the injected segments stand in the tick in
    the reverse of the order of the iterations, around the segments of the
    tick as it came in. *)
Theorem inject_iteration_order (i : Z) (seg : string → string → value) l s :
  (0 ≤ i ≤ Z.of_nat (length l))%Z →
  NoDup (schedule G).*2 →
  USER_CACHE s = ∅ →
  (∀ c m j w, registered G c m →
     (call E c m j (I3STATUS_CONFIG G) w).1 = Returns (VNum i) (seg c m)) →
  StronglySorted str_le (sorted_keys (USER_CLASSES G)) ∧
  sorted_keys (USER_CLASSES G) ≡ₚ (map_to_list (USER_CLASSES G)).*1 ∧
  inject E G (VList l) s = foldl (inject_step E G) (VList l, s) (schedule G) ∧
  invocations (inject E G (VList l) s).2 = invocations s ++ schedule G ∧
  ∃ rs,
    (inject E G (VList l) s).1
    = VList (take (Z.to_nat i) l ++ reverse rs ++ drop (Z.to_nat i) l) ∧
    Forall2 (fun cm r => ∃ now, r = with_cached_until G now (seg cm.1 cm.2))
            (schedule G) rs.
Proof.
  intros Hi Hnd Hempty Hcall. split; [|split; [|split; [|split]]].
  - apply StronglySorted_merge_sort; apply _.
  - apply sorted_keys_Permutation.
  - apply inject_schedule.
  - rewrite inject_schedule.
    apply (foldl_inject_step_absent (schedule G) (VList l, s) Hnd).
    intros m _. simpl. by rewrite Hempty.
  - rewrite inject_schedule.
    destruct (foldl_inject_step_same_index i seg l (schedule G) [] s Hi Hnd)
      as (rs & Hrs & Hall).
    + intros m _. by rewrite Hempty.
    + intros c m j w Hin. apply Hcall. by apply elem_of_schedule.
    + exists rs. split; [|done].
      simpl in Hrs. rewrite take_drop in Hrs. rewrite Hrs. by rewrite app_nil_r.
Qed.

End inject_facts.
End Facts.

Module TransformFacts.
Import Py Relay Facts.

Section transform_facts.
Context (E : Env) (G : globals).
Implicit Types (s : state E) (item : value) (delta : Z).

Local Abbreviation fmt := (time_format (I3STATUS_CONFIG G)).

(** The two ways in which the body of the loop ends without an exception. *)
Lemma transform_item_ok delta item item' :
  transform_item E G delta item = Ok item' →
  ∃ d name, item = VDict d ∧ dict_get "name" d = Some name ∧
    ((is_clock name = false ∧ item' = item) ∨
     (is_clock name = true ∧ ∃ text x y text',
        dict_get "full_text" d = Some (VStr text) ∧
        strptime E text fmt = Some x ∧
        add_seconds E x delta = Some y ∧
        strftime E y fmt = Some text' ∧
        item' = VDict (mark delta (dict_set "full_text" (VStr text') d)))).
Proof.
  unfold transform_item. destruct item as [| | | | |d]; try discriminate.
  simpl. destruct (dict_get "name" d) as [name|] eqn:Hname; [|discriminate].
  simpl. intros H. exists d, name. do 2 (split; [done|]).
  destruct (is_clock name); [right | left; split; congruence].
  split; [done|].
  destruct (dict_get "full_text" d) as [[| | |text| |]|] eqn:Htext;
    try discriminate.
  simpl in H.
  destruct (strptime E text fmt) as [x|] eqn:Hx; [|discriminate].
  destruct (add_seconds E x delta) as [y|] eqn:Hy; [|discriminate].
  destruct (strftime E y fmt) as [text'|] eqn:Ht; [|discriminate].
  exists text, x, y, text'. do 4 (split; [done|]).
  simpl in H. unfold mark. destruct (0 <? delta)%Z; simpl in H; congruence.
Qed.

Lemma transform_item_clock delta d name text x y text' :
  dict_get "name" d = Some name → is_clock name = true →
  dict_get "full_text" d = Some (VStr text) →
  strptime E text fmt = Some x →
  add_seconds E x delta = Some y →
  strftime E y fmt = Some text' →
  transform_item E G delta (VDict d)
  = Ok (VDict (mark delta (dict_set "full_text" (VStr text') d))).
Proof.
  intros Hname Hclock Htext Hx Hy Ht. unfold transform_item. simpl.
  rewrite Hname. simpl. rewrite Hclock, Htext. simpl.
  rewrite Hx, Hy, Ht. simpl. unfold mark. by destruct (0 <? delta)%Z.
Qed.

Lemma transform_items_stop delta pre pre' bad post e :
  Forall2 (fun x y => transform_item E G delta x = Ok y) pre pre' →
  transform_item E G delta bad = Raise e →
  transform_items E G delta (pre ++ bad :: post) = (pre' ++ bad :: post, Some e).
Proof.
  intros Hpre Hbad. induction Hpre as [|x y pre pre' Hx _ IH]; simpl.
  - by rewrite Hbad.
  - by rewrite Hx, IH.
Qed.

(** C2, amended: an item of the tick on which the body of the loop raises
    ends the loop.  The failing segment and every segment after it are
    left as they came, the segments before it keep their update, one
    syslog line is written and the tick is returned. *)
Theorem transform_failure_stops_loop delta pre pre' bad post e s :
  Forall2 (fun x y => transform_item E G delta x = Ok y) pre pre' →
  transform_item E G delta bad = Raise e →
  transform E G (VList (pre ++ bad :: post)) delta s
  = (VList (pre' ++ bad :: post),
     syslog_write E (TransformationFailed e) s).
Proof.
  intros Hpre Hbad. unfold transform, transform_loop.
  by rewrite (transform_items_stop _ _ _ _ _ _ Hpre Hbad).
Qed.

(** *** Two deltas in a row *)

Lemma mark_mark d1 d2 t1 t2 d :
  (0 ≤ d1)%Z → (0 ≤ d2)%Z → dict_has "full_text" d = true →
  mark d2 (dict_set "full_text" t2 (mark d1 (dict_set "full_text" t1 d)))
  = mark (d1 + d2) (dict_set "full_text" t2 d).
Proof.
  intros H1 H2 Hd. unfold mark.
  assert (dict_has "full_text" (dict_set "full_text" t1 d) = true) as Hd1
    by apply dict_has_set_eq.
  destruct (Z.ltb_spec 0 d1), (Z.ltb_spec 0 d2), (Z.ltb_spec 0 (d1 + d2));
    try lia.
  - rewrite (dict_set_comm "full_text" "transformed" t2 (VBool true) _
               ltac:(done) Hd1).
    by rewrite dict_set_set, dict_set_set.
  - rewrite (dict_set_comm "full_text" "transformed" t2 (VBool true) _
               ltac:(done) Hd1).
    by rewrite dict_set_set.
  - by rewrite dict_set_set.
  - by rewrite dict_set_set.
Qed.

Lemma dict_get_mark_ne k delta d :
  k ≠ "transformed" → dict_get k (mark delta d) = dict_get k d.
Proof.
  intros Hk. unfold mark. destruct (0 <? delta)%Z; [|done].
  by apply dict_get_set_ne.
Qed.

Lemma transform_item_twice d1 d2 item item1 item2 :
  (0 ≤ d1)%Z → (0 ≤ d2)%Z →
  (∀ x y, add_seconds E x d1 = Some y →
          add_seconds E y d2 = add_seconds E x (d1 + d2)) →
  reparses E G d1 item →
  transform_item E G d1 item = Ok item1 →
  transform_item E G d2 item1 = Ok item2 →
  transform_item E G (d1 + d2) item = Ok item2.
Proof.
  intros Hd1 Hd2 Hadd Hre H1 H2.
  destruct (transform_item_ok _ _ _ H1)
    as (d & name & -> & Hname & [[Hclock ->] | (Hclock & text & x & y & t1 & Htext & Hx & Hy & Ht1 & ->)]).
  - destruct (transform_item_ok _ _ _ H2)
      as (d' & name' & [= <-] & Hname' & [[_ ->] | (Hclock' & _)]).
    + unfold transform_item. simpl. rewrite Hname. simpl.
      by rewrite Hclock.
    + congruence.
  - destruct (transform_item_ok _ _ _ H2)
      as (d' & name' & [= <-] & Hname' & [[Hclock' _] | (_ & text1 & x1 & z & t2 & Htext1 & Hx1 & Hz & Ht2 & ->)]).
    + rewrite dict_get_mark_ne, dict_get_set_ne in Hname' by done. congruence.
    + rewrite dict_get_mark_ne, dict_get_set_eq in Htext1 by done.
      injection Htext1 as <-.
      assert (strptime E t1 fmt = Some y) as Hy'.
      { apply (Hre text x y t1); try done. simpl. by rewrite Htext. }
      rewrite Hy' in Hx1. injection Hx1 as <-.
      rewrite (Hadd x y Hy) in Hz.
      rewrite (transform_item_clock (d1 + d2) d name text x z t2); try done.
      rewrite mark_mark; try done.
      unfold dict_has. by rewrite Htext.
Qed.

Lemma transform_items_twice d1 d2 l l1 l2 :
  (0 ≤ d1)%Z → (0 ≤ d2)%Z →
  (∀ x y, add_seconds E x d1 = Some y →
          add_seconds E y d2 = add_seconds E x (d1 + d2)) →
  Forall (reparses E G d1) l →
  transform_items E G d1 l = (l1, None) →
  transform_items E G d2 l1 = (l2, None) →
  transform_items E G (d1 + d2) l = (l2, None).
Proof.
  intros Hd1 Hd2 Hadd Hre. revert l1 l2.
  induction Hre as [|item l Hitem _ IH]; intros l1 l2; simpl.
  - intros [= <-]. simpl. by intros [= <-].
  - destruct (transform_item E G d1 item) as [item1|] eqn:H1; [|discriminate].
    destruct (transform_items E G d1 l) as [l1' e1] eqn:Hl1.
    intros [= <- ->]. simpl.
    destruct (transform_item E G d2 item1) as [item2|] eqn:H2; [|discriminate].
    destruct (transform_items E G d2 l1') as [l2' e2] eqn:Hl2.
    intros [= <- ->].
    rewrite (transform_item_twice d1 d2 item item1 item2); try done.
    by rewrite (IH l1' l2').
Qed.

(** C7: for deltas that are not negative, a tick on which both
    transformations go through (every parse and every format succeeds) and
    on which the first one loses nothing to the format comes out of the two
    transformations as it comes out of one transformation with the sum of
    the deltas: every clock segment has the same [full_text] (and the same
    mark) either way.  The addition of seconds is taken to be additive, as
    it is for [timedelta]. *)
Theorem transform_deltas_add d1 d2 l l1 l2 s :
  (0 ≤ d1)%Z → (0 ≤ d2)%Z →
  (∀ x y, add_seconds E x d1 = Some y →
          add_seconds E y d2 = add_seconds E x (d1 + d2)) →
  Forall (reparses E G d1) l →
  transform_loop E G d1 (VList l) = (VList l1, None) →
  transform_loop E G d2 (VList l1) = (VList l2, None) →
  transform E G (VList l) (d1 + d2) s
  = transform E G (transform E G (VList l) d1 s).1 d2
      (transform E G (VList l) d1 s).2 ∧
  transform E G (VList l) (d1 + d2) s = (VList l2, s).
Proof.
  intros Hd1 Hd2 Hadd Hre H1 H2.
  assert (transform_items E G d1 l = (l1, None)) as H1'.
  { unfold transform_loop in H1.
    destruct (transform_items E G d1 l). congruence. }
  assert (transform_items E G d2 l1 = (l2, None)) as H2'.
  { unfold transform_loop in H2.
    destruct (transform_items E G d2 l1). congruence. }
  pose proof (transform_items_twice d1 d2 l l1 l2 Hd1 Hd2 Hadd Hre H1' H2') as H12.
  assert (∀ delta j j', transform_loop E G delta j = (j', None) →
            transform E G j delta s = (j', s)) as Hquiet.
  { intros delta j j' Hj. unfold transform. by rewrite Hj. }
  assert (transform_loop E G (d1 + d2) (VList l) = (VList l2, None)) as H3.
  { unfold transform_loop. by rewrite H12. }
  rewrite (Hquiet _ _ _ H1), (Hquiet _ _ _ H3). simpl.
  by rewrite (Hquiet _ _ _ H2).
Qed.

End transform_facts.
End TransformFacts.

Module JsonFacts.
Import Py Json.

Lemma append_cons x (a b : string) : String x a +:+ b = String x (a +:+ b).
Proof. reflexivity. Qed.

Lemma append_nil_l (b : string) : EmptyString +:+ b = b.
Proof. reflexivity. Qed.

Lemma append_assoc (a b c : string) : (a +:+ b) +:+ c = a +:+ (b +:+ c).
Proof.
  induction a as [|x a IH]; [done|]. by rewrite !append_cons, IH.
Qed.

Lemma append_nil_r (a : string) : a +:+ EmptyString = a.
Proof. induction a as [|x a IH]; [done|]. by rewrite append_cons, IH. Qed.

Lemma length_append (a b : string) :
  String.length (a +:+ b) = (String.length a + String.length b)%nat.
Proof.
  induction a as [|x a IH]; [done|]. rewrite append_cons. simpl. by rewrite IH.
Qed.

(** *** Strings *)

Lemma parse_string_escape_char a rest :
  parse_string (escape_char a +:+ rest)
  = match parse_string rest with
    | Some (t, r) => Some (String a t, r)
    | None => None
    end.
Proof.
  destruct a as [[] [] [] [] [] [] [] []]; reflexivity.
Qed.

Lemma parse_string_escape s rest :
  parse_string (escape s +:+ String quote rest) = Some (s, rest).
Proof.
  induction s as [|a s IH]; [reflexivity|].
  cbn [escape]. rewrite append_assoc, parse_string_escape_char.
  by rewrite IH.
Qed.

Lemma encode_string_append s rest :
  encode_string s +:+ rest = String quote (escape s +:+ String quote rest).
Proof. unfold encode_string. by rewrite append_cons, append_assoc. Qed.

(** *** Numbers *)

Lemma parse_digits_uint u rest :
  ends_number rest →
  parse_digits (uint_digits u +:+ rest) = (u, rest).
Proof.
  intros Hrest.
  induction u; cbn [uint_digits]; rewrite ?append_cons;
    try (cbn [parse_digits]; simpl digit_of; rewrite IHu; reflexivity).
  rewrite append_nil_l.
  destruct rest as [|a rest]; [done|]. destruct Hrest as [Ha _].
  cbn [parse_digits]. by rewrite Ha.
Qed.

Lemma unorm_head u :
  match Decimal.unorm u with
  | Decimal.Nil => False
  | Decimal.D0 Decimal.Nil => True
  | Decimal.D0 _ => False
  | _ => True
  end.
Proof. induction u; simpl; done. Qed.

Lemma to_uint_head p :
  match Pos.to_uint p with
  | Decimal.Nil | Decimal.D0 _ => False
  | _ => True
  end.
Proof.
  pose proof (DecimalPos.Unsigned.to_of (Pos.to_uint p)) as Hnorm.
  rewrite DecimalPos.Unsigned.of_to in Hnorm. simpl in Hnorm.
  pose proof (unorm_head (Pos.to_uint p)) as Hhead.
  pose proof (DecimalPos.Unsigned.to_uint_nonzero p) as Hnz.
  rewrite <- Hnorm in Hhead.
  destruct (Pos.to_uint p) as [|u| | | | | | | | |]; try done.
  destruct u; try done.
Qed.

Lemma parse_uint_digits u rest :
  ends_number rest →
  match u with Decimal.Nil | Decimal.D0 _ => False | _ => True end →
  parse_uint (uint_digits u +:+ rest) = Some (u, rest).
Proof.
  intros Hrest Hu.
  destruct u; try done; cbn [uint_digits]; rewrite append_cons;
    unfold parse_uint; simpl Ascii.eqb; simpl digit_of; cbv iota;
    by rewrite parse_digits_uint.
Qed.

Lemma ends_number_fraction rest : ends_number rest → starts_fraction rest = false.
Proof. destruct rest; [done | by intros [_ ?]]. Qed.

Lemma parse_number_encode_int z rest :
  ends_number rest →
  parse_number (encode_int z +:+ rest) = Some (VNum z, rest).
Proof.
  intros Hrest. pose proof (ends_number_fraction rest Hrest) as Hfrac.
  unfold encode_int. destruct z as [|p|p]; simpl Z.to_int.
  - change (Decimal.Pos Decimal.zero) with (Decimal.Pos (Decimal.D0 Decimal.Nil)).
    cbn [uint_digits]. rewrite append_cons, append_nil_l.
    unfold parse_number, parse_uint. simpl Ascii.eqb. cbv iota.
    by rewrite Hfrac.
  - pose proof (to_uint_head p) as Hhead.
    pose proof (parse_uint_digits (Pos.to_uint p) rest Hrest Hhead) as Hparse.
    pose proof (DecimalZ.of_to (Z.pos p)) as Hz. simpl Z.to_int in Hz.
    destruct (Pos.to_uint p) as [|u|u|u|u|u|u|u|u|u|u]; try done;
      cbn [uint_digits] in *; rewrite append_cons in *;
      unfold parse_number; simpl Ascii.eqb; cbv iota;
      rewrite Hparse, Hfrac, Hz; reflexivity.
  - pose proof (to_uint_head p) as Hhead.
    pose proof (parse_uint_digits (Pos.to_uint p) rest Hrest Hhead) as Hparse.
    pose proof (DecimalZ.of_to (Z.neg p)) as Hz. simpl Z.to_int in Hz.
    cbv iota beta. rewrite append_cons. unfold parse_number. simpl Ascii.eqb. cbv iota.
    by rewrite Hparse, Hfrac, Hz.
Qed.

Lemma encode_int_head z :
  ∃ c t, encode_int z = String c t ∧ starts_number c = true.
Proof.
  unfold encode_int. destruct z as [|p|p]; simpl Z.to_int.
  - by eexists _, _.
  - pose proof (to_uint_head p) as Hhead.
    destruct (Pos.to_uint p); try done; by eexists _, _.
  - by eexists _, _.
Qed.

Lemma parse_value_number n c t :
  starts_number c = true →
  parse_value (S n) (String c t) = parse_number (String c t).
Proof.
  destruct c as [[] [] [] [] [] [] [] []]; try discriminate; reflexivity.
Qed.


(** *** Values *)

Lemma value_ind_nested (P : value → Prop) :
  P VNone → (∀ b, P (VBool b)) → (∀ n, P (VNum n)) → (∀ s, P (VStr s)) →
  (∀ l, Forall P l → P (VList l)) →
  (∀ d, Forall (fun kv => P (snd kv)) d → P (VDict d)) →
  ∀ v, P v.
Proof.
  intros HN HB HZ HS HL HD.
  refine (fix IH (v : value) : P v :=
            match v with
            | VNone => HN
            | VBool b => HB b
            | VNum n => HZ n
            | VStr s => HS s
            | VList l =>
                HL l ((fix go (l : list value) : Forall P l :=
                         match l with
                         | [] => @List.Forall_nil _ P
                         | x :: l' => @List.Forall_cons _ P x l' (IH x) (go l')
                         end) l)
            | VDict d =>
                HD d ((fix go (d : list (string * value))
                         : Forall (fun kv => P (snd kv)) d :=
                         match d with
                         | [] => @List.Forall_nil _ (fun kv => P (snd kv))
                         | kv :: d' =>
                             @List.Forall_cons _ (fun kv => P (snd kv)) kv d'
                               (IH (snd kv)) (go d')
                         end) d)
            end).
Qed.

Lemma depth_list l : depth (VList l) = S (elems_depth l).
Proof. reflexivity. Qed.

Lemma depth_dict d : depth (VDict d) = S (members_depth d).
Proof. reflexivity. Qed.

Lemma dumps_list l :
  dumps (VList l) = String "[" (join ", " (map dumps l) +:+ "]").
Proof. reflexivity. Qed.

Lemma dumps_dict d :
  dumps (VDict d) = String "{" (join ", " (map member d) +:+ "}").
Proof. reflexivity. Qed.

Lemma join_cons2 sep x y l :
  join sep (x :: y :: l) = x +:+ sep +:+ join sep (y :: l).
Proof. reflexivity. Qed.

(** The equations of the decoder. *)
Lemma parse_value_string n r :
  parse_value (S n) (String quote r)
  = match parse_string r with
    | Some (t, rest) => Some (VStr t, rest)
    | None => None
    end.
Proof. reflexivity. Qed.

Lemma parse_value_list n r :
  parse_value (S n) (String "[" r)
  = match skip_ws r with
    | String c1 r1 =>
        if Ascii.eqb c1 "]" then Some (VList [], r1)
        else match parse_elems n (String c1 r1) with
             | Some (l, rest) => Some (VList l, rest)
             | None => None
             end
    | EmptyString => None
    end.
Proof. reflexivity. Qed.

Lemma parse_value_dict n r :
  parse_value (S n) (String "{" r)
  = match skip_ws r with
    | String c1 r1 =>
        if Ascii.eqb c1 "}" then Some (VDict [], r1)
        else match parse_members n (String c1 r1) with
             | Some (d, rest) => Some (VDict (dict_of_pairs d), rest)
             | None => None
             end
    | EmptyString => None
    end.
Proof. reflexivity. Qed.

Lemma parse_elems_S n s :
  parse_elems (S n) s
  = match parse_value n s with
    | Some (v, r) =>
        match skip_ws r with
        | String c r1 =>
            if Ascii.eqb c "," then
              match parse_elems n (skip_ws r1) with
              | Some (l, rest) => Some (v :: l, rest)
              | None => None
              end
            else if Ascii.eqb c "]" then Some ([v], r1)
            else None
        | EmptyString => None
        end
    | None => None
    end.
Proof. reflexivity. Qed.

Lemma parse_members_S n r :
  parse_members (S n) (String quote r)
  = match parse_string r with
    | Some (k, r1) =>
        match skip_ws r1 with
        | String c r2 =>
            if Ascii.eqb c ":" then
              match parse_value n (skip_ws r2) with
              | Some (v, r3) =>
                  match skip_ws r3 with
                  | String c' r4 =>
                      if Ascii.eqb c' "," then
                        match parse_members n (skip_ws r4) with
                        | Some (d, rest) => Some ((k, v) :: d, rest)
                        | None => None
                        end
                      else if Ascii.eqb c' "}" then Some ([(k, v)], r4)
                      else None
                  | EmptyString => None
                  end
              | None => None
              end
            else None
        | EmptyString => None
        end
    | None => None
    end.
Proof. reflexivity. Qed.

Lemma starts_number_value c : starts_number c = true → starts_value c = true.
Proof. destruct c as [[] [] [] [] [] [] [] []]; try discriminate; reflexivity. Qed.

Lemma dumps_head v : ∃ c t, dumps v = String c t ∧ starts_value c = true.
Proof.
  destruct v as [|[]|n|s|l|d]; try (by eexists _, _).
  destruct (encode_int_head n) as (c & t & Hn & Hc).
  exists c, t. split; [done | by apply starts_number_value].
Qed.

Lemma skip_ws_dumps v rest : skip_ws (dumps v +:+ rest) = dumps v +:+ rest.
Proof.
  destruct (dumps_head v) as (c & t & -> & Hc). rewrite append_cons.
  unfold starts_value in Hc. apply andb_true_iff in Hc as [Hws _].
  cbn [skip_ws]. by destruct (is_ws c).
Qed.


Lemma skip_ws_join x l rest :
  skip_ws (join ", " (map dumps (x :: l)) +:+ rest)
  = join ", " (map dumps (x :: l)) +:+ rest.
Proof.
  destruct l as [|y l].
  - apply skip_ws_dumps.
  - change (join ", " (map dumps (x :: y :: l)))
      with (dumps x +:+ ", " +:+ join ", " (map dumps (y :: l))).
    rewrite append_assoc. apply skip_ws_dumps.
Qed.

Lemma join_head x l rest :
  ∃ c t, join ", " (map dumps (x :: l)) +:+ rest = String c t
         ∧ starts_value c = true.
Proof.
  destruct (dumps_head x) as (c & t & Hx & Hc).
  destruct l as [|y l].
  - change (join ", " (map dumps [x])) with (dumps x).
    rewrite Hx, append_cons. by eexists _, _.
  - change (join ", " (map dumps (x :: y :: l)))
      with (dumps x +:+ ", " +:+ join ", " (map dumps (y :: l))).
    rewrite Hx, !append_cons. by eexists _, _.
Qed.

Lemma parse_elems_dumps l :
  Forall decodes l → l ≠ [] →
  ∀ n rest, (elems_depth l ≤ n)%nat →
    parse_elems n (join ", " (map dumps l) +:+ String "]" rest) = Some (l, rest).
Proof.
  induction 1 as [|x l Hx Hl IH]; [done|]. intros _ n rest Hn.
  destruct n as [|n]; [simpl in Hn; lia|]. cbn [elems_depth] in Hn.
  fold (elems_depth l) in Hn.
  pose proof (Nat.le_max_l (depth x) (elems_depth l)) as Hmax1.
  pose proof (Nat.le_max_r (depth x) (elems_depth l)) as Hmax2.
  assert (depth x ≤ n)%nat as Hdx by lia.
  assert (elems_depth l ≤ n)%nat as Hdl by lia.
  clear Hn Hmax1 Hmax2.
  rewrite parse_elems_S. destruct l as [|y l].
  - change (join ", " (map dumps [x])) with (dumps x).
    rewrite (Hx n (String "]" rest)); [reflexivity | done | by split].
  - change (join ", " (map dumps (x :: y :: l)))
      with (dumps x +:+ ", " +:+ join ", " (map dumps (y :: l))).
    rewrite !append_assoc.
    change (", " +:+ ?X) with (String "," (String " " X)).
    rewrite (Hx n); [|done|by split].
    change (skip_ws (String "," ?X)) with (String "," X). cbv iota.
    change (Ascii.eqb "," ",") with true. cbv iota.
    change (skip_ws (String " " ?X)) with (skip_ws X).
    rewrite skip_ws_join, IH; [reflexivity | done | done].
Qed.

Lemma member_append k v rest :
  member (k, v) +:+ rest
  = String quote (escape k +:+ String quote
      (String ":" (String " " (dumps v +:+ rest)))).
Proof.
  unfold member. cbn [fst snd].
  rewrite !append_assoc, encode_string_append. reflexivity.
Qed.

Lemma skip_ws_members kv d rest :
  skip_ws (join ", " (map member (kv :: d)) +:+ rest)
  = join ", " (map member (kv :: d)) +:+ rest.
Proof.
  destruct kv as [k v]. destruct d as [|kv' d].
  - change (join ", " (map member [(k, v)])) with (member (k, v)).
    by rewrite member_append.
  - change (join ", " (map member ((k, v) :: kv' :: d)))
      with (member (k, v) +:+ ", " +:+ join ", " (map member (kv' :: d))).
    by rewrite append_assoc, member_append.
Qed.

Lemma members_head kv d rest :
  ∃ t, join ", " (map member (kv :: d)) +:+ rest = String quote t.
Proof.
  destruct kv as [k v]. destruct d as [|kv' d].
  - change (join ", " (map member [(k, v)])) with (member (k, v)).
    rewrite member_append. by eexists.
  - change (join ", " (map member ((k, v) :: kv' :: d)))
      with (member (k, v) +:+ ", " +:+ join ", " (map member (kv' :: d))).
    rewrite append_assoc, member_append. by eexists.
Qed.

Lemma parse_members_dumps d :
  Forall (fun kv => decodes (snd kv)) d → d ≠ [] →
  ∀ n rest, (members_depth d ≤ n)%nat →
    parse_members n (join ", " (map member d) +:+ String "}" rest)
    = Some (d, rest).
Proof.
  induction 1 as [|[k v] d Hv Hd IH]; [done|]. intros _ n rest Hn.
  destruct n as [|n]; [simpl in Hn; lia|]. cbn [members_depth snd] in Hn.
  fold (members_depth d) in Hn.
  pose proof (Nat.le_max_l (depth v) (members_depth d)) as Hmax1.
  pose proof (Nat.le_max_r (depth v) (members_depth d)) as Hmax2.
  assert (depth v ≤ n)%nat as Hdv by lia.
  assert (members_depth d ≤ n)%nat as Hdd by lia.
  clear Hn Hmax1 Hmax2. cbn [snd] in Hv.
  destruct d as [|kv' d].
  - change (join ", " (map member [(k, v)])) with (member (k, v)).
    rewrite member_append, parse_members_S, parse_string_escape.
    change (skip_ws (String ":" ?X)) with (String ":" X). cbv iota.
    change (Ascii.eqb ":" ":") with true. cbv iota.
    change (skip_ws (String " " ?X)) with (skip_ws X).
    rewrite skip_ws_dumps, (Hv n (String "}" rest)); [reflexivity | done | by split].
  - change (join ", " (map member ((k, v) :: kv' :: d)))
      with (member (k, v) +:+ ", " +:+ join ", " (map member (kv' :: d))).
    rewrite !append_assoc, member_append, parse_members_S, parse_string_escape.
    change (skip_ws (String ":" ?X)) with (String ":" X). cbv iota.
    change (Ascii.eqb ":" ":") with true. cbv iota.
    change (skip_ws (String " " ?X)) with (skip_ws X).
    change (", " +:+ ?X) with (String "," (String " " X)).
    rewrite skip_ws_dumps, (Hv n); [|done|by split].
    change (skip_ws (String "," ?X)) with (String "," X). cbv iota.
    change (Ascii.eqb "," ",") with true. cbv iota.
    change (skip_ws (String " " ?X)) with (skip_ws X).
    rewrite skip_ws_members, IH; [reflexivity | done | done].
Qed.

(** [dict(pairs)] on pairs without a repeated key. *)
Lemma dict_set_fresh k v d :
  k ∉ map fst d → dict_set k v d = d ++ [(k, v)].
Proof.
  induction d as [|[k' v'] d IH]; [done|]. intros Hk. simpl.
  destruct (String.eqb_spec k k') as [->|Hne].
  - destruct Hk. left.
  - rewrite IH; [done|]. intros Hin. apply Hk. by right.
Qed.

Lemma fold_dict_set_fresh pairs acc :
  NoDup (map fst (acc ++ pairs)) →
  fold_left (fun d kv => dict_set (fst kv) (snd kv) d) pairs acc = acc ++ pairs.
Proof.
  revert acc. induction pairs as [|[k v] pairs IH]; intros acc Hnd; simpl.
  - by rewrite app_nil_r.
  - rewrite dict_set_fresh.
    + rewrite IH; [by rewrite <- app_assoc|]. by rewrite <- app_assoc.
    + rewrite map_app in Hnd. apply NoDup_app in Hnd as (_ & Hdisj & _).
      intros Hin. apply (Hdisj k Hin). left.
Qed.

Lemma dict_of_pairs_NoDup d : NoDup (map fst d) → dict_of_pairs d = d.
Proof. intros Hnd. unfold dict_of_pairs. by rewrite fold_dict_set_fresh. Qed.

Lemma decodes_wf v : wf v → decodes v.
Proof.
  induction v as [|b|z|s|l IH|d IH] using value_ind_nested;
    intros Hwf n rest Hn Hrest;
    (destruct n as [|n]; [simpl in Hn; lia|]).
  - reflexivity.
  - by destruct b.
  - change (dumps (VNum z)) with (encode_int z).
    pose proof (parse_number_encode_int z rest Hrest) as Hp.
    destruct (encode_int_head z) as (c & t & Hz & Hc).
    rewrite Hz, append_cons in *. by rewrite parse_value_number.
  - change (dumps (VStr s)) with (encode_string s).
    by rewrite encode_string_append, parse_value_string, parse_string_escape.
  - inversion Hwf as [| | | |l' Hl|]; subst.
    assert (Forall decodes l) as Hdec.
    { clear -IH Hl. induction IH; inversion Hl; subst; constructor; auto. }
    rewrite depth_list in Hn. rewrite dumps_list, append_cons, parse_value_list.
    destruct l as [|x l]; [reflexivity|].
    rewrite append_assoc. change ("]" +:+ rest) with (String "]" rest).
    rewrite skip_ws_join.
    destruct (join_head x l (String "]" rest)) as (c & t & Heq & Hc).
    rewrite Heq. unfold starts_value in Hc. apply andb_true_iff in Hc as [_ Hc].
    apply negb_true_iff in Hc. rewrite Hc, <- Heq.
    rewrite parse_elems_dumps; [reflexivity | done | done | lia].
  - inversion Hwf as [| | | | |d' Hnd Hd]; subst.
    assert (Forall (fun kv => decodes (snd kv)) d) as Hdec.
    { clear -IH Hd. induction IH; inversion Hd; subst; constructor; auto. }
    rewrite depth_dict in Hn. rewrite dumps_dict, append_cons, parse_value_dict.
    destruct d as [|kv d]; [reflexivity|].
    rewrite append_assoc. change ("}" +:+ rest) with (String "}" rest).
    rewrite skip_ws_members.
    destruct (members_head kv d (String "}" rest)) as (t & Heq).
    rewrite Heq. change (Ascii.eqb quote "}") with false. cbv iota.
    rewrite <- Heq.
    rewrite parse_members_dumps; [|done|done|lia].
    by rewrite dict_of_pairs_NoDup.
Qed.


(** *** The fuel of [loads] suffices *)

Lemma length_dumps_pos v : (1 ≤ String.length (dumps v))%nat.
Proof. destruct (dumps_head v) as (c & t & -> & _). simpl. lia. Qed.

Lemma elems_depth_bound l :
  Forall (fun x => S (depth x) ≤ 2 * String.length (dumps x))%nat l →
  (elems_depth l ≤ 2 * String.length (join ", " (map dumps l)))%nat.
Proof.
  induction 1 as [|x l Hx Hl IH]; [done|]. cbn [elems_depth].
  fold (elems_depth l).
  destruct l as [|y l].
  - change (join ", " (map dumps [x])) with (dumps x).
    cbn [elems_depth]. rewrite Nat.max_0_r. lia.
  - change (join ", " (map dumps (x :: y :: l)))
      with (dumps x +:+ ", " +:+ join ", " (map dumps (y :: l))).
    rewrite !length_append. change (String.length ", ") with 2%nat.
    assert (depth x `max` elems_depth (y :: l)
            ≤ 2 * String.length (dumps x)
              + 2 * String.length (join ", " (map dumps (y :: l))))%nat
      by (apply Nat.max_lub; lia).
    lia.
Qed.

Lemma length_member kv :
  (String.length (dumps (snd kv)) + 2 ≤ String.length (member kv))%nat.
Proof.
  unfold member. rewrite !length_append. change (String.length ": ") with 2%nat.
  lia.
Qed.

Lemma members_depth_bound d :
  Forall (fun kv => S (depth (snd kv)) ≤ 2 * String.length (dumps (snd kv)))%nat d →
  (members_depth d ≤ 2 * String.length (join ", " (map member d)))%nat.
Proof.
  induction 1 as [|kv d Hx Hl IH]; [done|]. cbn [members_depth].
  fold (members_depth d). pose proof (length_member kv) as Hkv.
  destruct d as [|kv' d].
  - change (join ", " (map member [kv])) with (member kv).
    cbn [members_depth]. rewrite Nat.max_0_r. lia.
  - change (join ", " (map member (kv :: kv' :: d)))
      with (member kv +:+ ", " +:+ join ", " (map member (kv' :: d))).
    rewrite !length_append. change (String.length ", ") with 2%nat.
    assert (depth (snd kv) `max` members_depth (kv' :: d)
            ≤ 2 * String.length (member kv)
              + 2 * String.length (join ", " (map member (kv' :: d))))%nat
      by (apply Nat.max_lub; lia).
    lia.
Qed.

Lemma depth_bound v : (S (depth v) ≤ 2 * String.length (dumps v))%nat.
Proof.
  induction v as [|b|z|s|l IH|d IH] using value_ind_nested.
  - simpl. lia.
  - destruct b; simpl; lia.
  - pose proof (length_dumps_pos (VNum z)). simpl depth. lia.
  - pose proof (length_dumps_pos (VStr s)). simpl depth. lia.
  - pose proof (elems_depth_bound l IH). rewrite depth_list, dumps_list.
    cbn [String.length]. rewrite length_append. simpl String.length. lia.
  - pose proof (members_depth_bound d IH). rewrite depth_dict, dumps_dict.
    cbn [String.length]. rewrite length_append. simpl String.length. lia.
Qed.

(** Encoding a value without repeated keys and decoding the text gives the
    value back. *)
Lemma loads_dumps v : wf v → loads (dumps v) = Some v.
Proof.
  intros Hwf. unfold loads.
  pose proof (skip_ws_dumps v EmptyString) as Hskip.
  rewrite append_nil_r in Hskip. rewrite Hskip.
  pose proof (depth_bound v) as Hfuel.
  pose proof (decodes_wf v Hwf (S (2 * String.length (dumps v))) EmptyString
                ltac:(lia) I) as Hparse.
  rewrite append_nil_r in Hparse. by rewrite Hparse.
Qed.

(** *** What [loads] builds has no repeated key *)

Lemma dict_has_false k d : dict_has k d = false → k ∉ map fst d.
Proof.
  unfold dict_has. induction d as [|[k' v'] d IH]; simpl.
  - intros _ Hin. by apply elem_of_nil in Hin.
  - destruct (String.eqb_spec k k') as [->|Hne]; [done|].
    intros Hd Hin. apply elem_of_cons in Hin as [?|Hin]; [done|]. by apply IH.
Qed.

Lemma dict_set_keys k v d :
  map fst (dict_set k v d)
  = if dict_has k d then map fst d else map fst d ++ [k].
Proof.
  unfold dict_has. induction d as [|[k' v'] d IH]; simpl; [done|].
  destruct (String.eqb k k'); simpl; [done|].
  rewrite IH. by destruct (dict_get k d).
Qed.

Lemma NoDup_dict_set k v d :
  NoDup (map fst d) → NoDup (map fst (dict_set k v d)).
Proof.
  intros Hnd. rewrite dict_set_keys.
  destruct (dict_has k d) eqn:Hk; [done|].
  apply NoDup_app. split; [done|]. split.
  - intros x Hx Hin. apply list_elem_of_singleton in Hin as ->.
    by apply (dict_has_false _ _ Hk).
  - apply NoDup_singleton.
Qed.

Lemma Forall_dict_set (P : value → Prop) k v d :
  P v → Forall (fun kv => P (snd kv)) d →
  Forall (fun kv => P (snd kv)) (dict_set k v d).
Proof.
  intros Hv. induction 1 as [|[k' v'] d Hx Hd IH]; simpl.
  - by constructor.
  - destruct (String.eqb k k'); constructor; auto.
Qed.

Lemma wf_dict_of_pairs pairs :
  Forall (fun kv => wf (snd kv)) pairs → wf (VDict (dict_of_pairs pairs)).
Proof.
  intros Hpairs. unfold dict_of_pairs.
  assert (∀ acc, NoDup (map fst acc) → Forall (fun kv => wf (snd kv)) acc →
            wf (VDict (fold_left (fun d kv => dict_set (fst kv) (snd kv) d)
                         pairs acc))) as Hfold.
  { induction Hpairs as [|kv pairs Hkv _ IH]; intros acc Hnd Hacc; simpl.
    - by constructor.
    - apply IH; [by apply NoDup_dict_set | by apply Forall_dict_set]. }
  apply Hfold; constructor.
Qed.

Lemma wf_empty_dict : wf (VDict []).
Proof. constructor; constructor. Qed.

Lemma parse_number_wf s v r : parse_number s = Some (v, r) → wf v.
Proof.
  unfold parse_number. intros H.
  repeat case_match; simplify_eq; constructor.
Qed.

Lemma parse_value_S n s :
  parse_value (S n) s
  = match s with
    | EmptyString => None
    | String c r =>
        if Ascii.eqb c quote then
          match parse_string r with
          | Some (t, rest) => Some (VStr t, rest)
          | None => None
          end
        else if Ascii.eqb c "[" then
          match skip_ws r with
          | String c1 r1 =>
              if Ascii.eqb c1 "]" then Some (VList [], r1)
              else match parse_elems n (String c1 r1) with
                   | Some (l, rest) => Some (VList l, rest)
                   | None => None
                   end
          | EmptyString => None
          end
        else if Ascii.eqb c "{" then
          match skip_ws r with
          | String c1 r1 =>
              if Ascii.eqb c1 "}" then Some (VDict [], r1)
              else match parse_members n (String c1 r1) with
                   | Some (d, rest) => Some (VDict (dict_of_pairs d), rest)
                   | None => None
                   end
          | EmptyString => None
          end
        else if str_startswith "null" s then Some (VNone, str_drop 4 s)
        else if str_startswith "true" s then Some (VBool true, str_drop 4 s)
        else if str_startswith "false" s then Some (VBool false, str_drop 5 s)
        else parse_number s
    end.
Proof. reflexivity. Qed.

Lemma parse_members_S_any n s :
  parse_members (S n) s
  = match s with
    | String q r =>
        if Ascii.eqb q quote then
          match parse_string r with
          | Some (k, r1) =>
              match skip_ws r1 with
              | String c r2 =>
                  if Ascii.eqb c ":" then
                    match parse_value n (skip_ws r2) with
                    | Some (v, r3) =>
                        match skip_ws r3 with
                        | String c' r4 =>
                            if Ascii.eqb c' "," then
                              match parse_members n (skip_ws r4) with
                              | Some (d, rest) => Some ((k, v) :: d, rest)
                              | None => None
                              end
                            else if Ascii.eqb c' "}" then Some ([(k, v)], r4)
                            else None
                        | EmptyString => None
                        end
                    | None => None
                    end
                  else None
              | EmptyString => None
              end
          | None => None
          end
        else None
    | EmptyString => None
    end.
Proof. reflexivity. Qed.

Lemma parse_wf n :
  (∀ s v r, parse_value n s = Some (v, r) → wf v) ∧
  (∀ s l r, parse_elems n s = Some (l, r) → Forall wf l) ∧
  (∀ s d r, parse_members n s = Some (d, r) → Forall (fun kv => wf (snd kv)) d).
Proof.
  induction n as [|n (IHv & IHe & IHm)]; [by repeat split|].
  split; [|split].
  - intros s v r. rewrite parse_value_S. intros H.
    repeat case_match; simplify_eq;
      eauto using wf, parse_number_wf, wf_dict_of_pairs, wf_empty_dict.
  - intros s l r. rewrite parse_elems_S. intros H.
    repeat case_match; simplify_eq; repeat constructor; eauto.
  - intros s d r. rewrite parse_members_S_any. intros H.
    repeat case_match; simplify_eq; repeat constructor; simpl; eauto.
Qed.

Lemma loads_wf s v : loads s = Some v → wf v.
Proof.
  unfold loads. intros H. repeat case_match; simplify_eq.
  eapply (proj1 (parse_wf _)). eassumption.
Qed.


End JsonFacts.

Module LineFacts.
Import Py Relay Facts JsonFacts.



Section line_facts.
Context (E : Env) (G : globals).
Implicit Types (s : state E) (j : value).

Lemma execute_stdout c m j s : stdout (execute E G c m j s).2 = stdout s.
Proof.
  unfold execute, invoke.
  destruct (call E c m j (I3STATUS_CONFIG G) (plugins s)) as [out w].
  destruct out as [index result|]; simpl.
  - destruct (contains "cached_until" result) as [[|]|]; simpl; try done.
    by destruct (setitem result _ _).
  - reflexivity.
Qed.

Lemma inject_method_stdout c m j s :
  stdout (inject_method E G c m j s).2 = stdout s.
Proof.
  unfold inject_method.
  destruct (cache_lookup E m s) as [p s1] eqn:Hp.
  destruct (cache_lookup_cache _ _ _ _ _ Hp) as (_ & _ & _ & _ & Hout).
  assert (∀ index result pending j0 s0,
    stdout (store_and_insert E m index result pending j0 s0).2 = stdout s0) as Hst.
  { intros. unfold store_and_insert.
    destruct (insert j0 index result); [destruct pending|]; reflexivity. }
  destruct p as [index result|index result e|]; rewrite ?Hst; try done.
  pose proof (execute_stdout c m j s1) as Hex.
  destruct (execute E G c m j s1) as [[[index result] pending] s2].
  rewrite Hst. simpl in Hex. congruence.
Qed.

Lemma inject_stdout j s : stdout (inject E G j s).2 = stdout s.
Proof.
  rewrite inject_schedule. generalize (schedule G). intros sched.
  change (stdout s) with (stdout (j, s).2). generalize (j, s).
  induction sched as [|[c m] sched IH]; intros js; simpl; [done|].
  rewrite IH. unfold inject_step. apply inject_method_stdout.
Qed.

Lemma transform_stdout j delta s :
  stdout (transform E G j delta s).2 = stdout s.
Proof.
  unfold transform. by destruct (transform_loop E G delta j) as [j' [e|]].
Qed.


(** The prefix that [process_line] puts before the encoded tick. *)
Lemma process_line_element line delta s r s' :
  is_header line = false → is_array_open line = false →
  process_line E G line delta s = (Ok r, s') →
  ∃ j,
    r = Some ((if str_startswith "," line || (0 <? delta)%Z then "," else EmptyString)
              +:+ Json.dumps j) ∧
    stdout s'
    = stdout s
      ++ [((if str_startswith "," line || (0 <? delta)%Z then "," else EmptyString)
           +:+ Json.dumps j) +:+ String newline EmptyString].
Proof.
  intros Hh Ha. unfold process_line. rewrite Hh, Ha.
  set (prefix := if str_startswith "," line || (0 <? delta)%Z then "," else EmptyString).
  set (payload := if str_startswith "," line then str_drop 1 line else line).
  replace (if str_startswith "," line then (str_drop 1 line, ",")
           else if (0 <? delta)%Z then (line, ",") else (line, EmptyString))
    with (payload, prefix).
  2:{ unfold payload, prefix.
      destruct (str_startswith "," line); [done|]. by destruct (0 <? delta)%Z. }
  destruct (Json.loads payload) as [j0|]; [|discriminate].
  destruct (if DISABLE_TRANSFORM G then (j0, s) else transform E G j0 delta s)
    as [j1 s1] eqn:Ht.
  assert (stdout s1 = stdout s) as Hs1.
  { destruct (DISABLE_TRANSFORM G).
    - by injection Ht as <- <-.
    - pose proof (transform_stdout j0 delta s) as H. rewrite Ht in H. done. }
  pose proof (inject_stdout j1 s1) as Hs2.
  destruct (inject E G j1 s1) as [j2 s2].
  intros [= <- <-]. exists j2. split; [done|]. simpl in *. congruence.
Qed.

Lemma main_loop_body_empty started init active_count ls l :
  line ls = LineStr l → started || negb init = true →
  main_loop_body E G (QueueEmpty started init active_count) ls
  = match process_line E G l (INTERVAL G) (time E (relay ls)).2 with
    | (Ok r, s1) =>
        let ls' := {| line := line_of_result r; forced := forced ls; relay := s1 |} in
        if (active_count <? 2)%nat then Break ls' else Continue ls'
    | (Raise _, s1) =>
        Exit 2 {| line := line ls; forced := forced ls; relay := s1 |}
    end.
Proof.
  intros Hl Hgo. unfold main_loop_body, time. rewrite Hgo, Hl. reflexivity.
Qed.

(** C8, amended: a synthetic tick (the wait on the queue timed out and the
    last line is processed again with the interval as delta) is written
    with a leading comma whenever the interval is positive, whether the
    last line had one or not. *)
Theorem synthetic_tick_has_comma started init active_count ls l :
  (0 < INTERVAL G)%Z →
  line ls = LineStr l →
  is_header l = false → is_array_open l = false →
  started || negb init = true →
  match main_loop_body E G (QueueEmpty started init active_count) ls with
  | Continue ls' | Break ls' =>
      ∃ output,
        line ls' = LineStr output ∧
        str_startswith "," output = true ∧
        stdout (relay ls')
        = stdout (relay ls) ++ [output +:+ String newline EmptyString]
  | Exit code _ => code = 2%Z
  end.
Proof.
  intros Hpos Hl Hh Ha Hgo.
  rewrite (main_loop_body_empty _ _ _ _ _ Hl Hgo).
  destruct (process_line E G l (INTERVAL G) (time E (relay ls)).2)
    as [[r|e] s'] eqn:Hp; [|done].
  destruct (process_line_element _ _ _ _ _ Hh Ha Hp) as (j & -> & Hout).
  assert ((0 <? INTERVAL G)%Z = true) as Hd by (apply Z.ltb_lt; lia).
  rewrite Hd, orb_true_r in Hout |- *.
  destruct (active_count <? 2)%nat; cbv zeta iota;
    exists ("," +:+ Json.dumps j); by repeat split.
Qed.


End line_facts.
End LineFacts.

Module InjectFacts.
Import Py Relay Facts Main.

Section more_inject_facts.
Context (E : Env) (G : globals).
Implicit Types (s : state E) (j index result : value) (m c : string).









(** *** The cache after [inject] *)

Lemma foldl_inject_step_dom sched js :
  dom (USER_CACHE (foldl (inject_step E G) js sched).2)
  = dom (USER_CACHE js.2) ∪ list_to_set sched.*2.
Proof.
  revert js. induction sched as [|[c m] sched IH]; intros js; cbn [foldl].
  - change (list_to_set ([] : list (string * string)).*2) with (∅ : gset string).
    by rewrite (right_id_L ∅ (∪)).
  - rewrite IH. unfold inject_step. cbn [fst snd].
    destruct (inject_method_cache_key E G c m js.1 js.2) as (entry & ->).
    rewrite dom_insert_L, fmap_cons, list_to_set_cons. cbn [snd].
    rewrite (comm_L (∪) {[m]} (dom (USER_CACHE js.2))).
    by rewrite (assoc_L (∪)).
Qed.

Lemma foldl_inject_step_frame sched js m :
  m ∉ sched.*2 →
  USER_CACHE (foldl (inject_step E G) js sched).2 !! m = USER_CACHE js.2 !! m.
Proof.
  revert js. induction sched as [|[c m'] sched IH]; intros js Hm; simpl; [done|].
  rewrite fmap_cons, not_elem_of_cons in Hm. destruct Hm as [Hne Hm].
  rewrite IH by done. unfold inject_step. simpl.
  destruct (inject_method_cache_key E G c m' js.1 js.2) as (entry & ->).
  by rewrite lookup_insert_ne.
Qed.

(** X2: After [inject] the cache holds an entry for exactly the names it held
    before and the names of the registered methods; the entry of a name
    that no registered method bears is the one it was. *)
Theorem inject_cache_names j s :
  dom (USER_CACHE (inject E G j s).2)
  = dom (USER_CACHE s) ∪ list_to_set (schedule G).*2 ∧
  ∀ m, (∀ c, ¬ registered G c m) →
       USER_CACHE (inject E G j s).2 !! m = USER_CACHE s !! m.
Proof.
  rewrite inject_schedule. split.
  - apply (foldl_inject_step_dom (schedule G) (j, s)).
  - intros m Hm. apply (foldl_inject_step_frame (schedule G) (j, s)).
    intros Hin. apply list_elem_of_fmap in Hin as ([c m'] & -> & Hin).
    apply elem_of_schedule in Hin. by apply (Hm c).
Qed.

Lemma cache_lookup_stamped m s index result s1 :
  (cache_lookup E m s = (Hit index result, s1) ∨
   ∃ e, cache_lookup E m s = (HitRaise index result e, s1)) →
  stamped result = true.
Proof.
  unfold cache_lookup.
  destruct (USER_CACHE s !! m) as [[index0 result0]|]; [|intros [|[e ?]]; discriminate].
  simpl. destruct result0 as [|b|n|str|l|d]; simpl;
    try (intros [H|[e H]]; [discriminate | by injection H as <- <- <-]).
  destruct (dict_get "cached_until" d) as [v|] eqn:Hd; [|intros [|[e ?]]; discriminate].
  assert (stamped (VDict d) = true) as Hst by (simpl; unfold dict_has; by rewrite Hd).
  destruct (num_gt _ v) as [[|]|err];
    intros [H|[e H]]; try discriminate; by injection H as <- <-.
Qed.

Lemma execute_stamped c m j s index result pending s2 :
  execute E G c m j s = (index, result, pending, s2) → stamped result = true.
Proof.
  destruct (call E c m j (I3STATUS_CONFIG G) (plugins s)) as [[index0 result0|] w] eqn:Hcall.
  - destruct (execute_returns E G _ _ _ _ _ _ _ Hcall) as (p & s' & -> & _).
    intros [= <- <- <- <-]. unfold with_cached_until.
    destruct result0 as [|b|n|str|l|d]; try done.
    destruct (dict_has "cached_until" d) eqn:Hd; simpl; [done|].
    apply dict_has_set_eq.
  - destruct (execute_raises E G _ _ _ _ _ Hcall) as (s' & -> & _).
    by intros [= <- <- <- <-].
Qed.

Lemma inject_method_stamped c m j s :
  entry_stamped (USER_CACHE (inject_method E G c m j s).2) m.
Proof.
  unfold inject_method, entry_stamped.
  destruct (cache_lookup E m s) as [p s1] eqn:Hp.
  destruct p as [index result|index result e|].
  - exists index, result. rewrite store_and_insert_cache, lookup_insert_eq.
    split; [done|]. eapply cache_lookup_stamped; eauto.
  - exists index, result. rewrite store_and_insert_cache, lookup_insert_eq.
    split; [done|]. eapply cache_lookup_stamped; eauto.
  - destruct (execute E G c m j s1) as [[[index result] pending] s2] eqn:Hex.
    exists index, result. rewrite store_and_insert_cache, lookup_insert_eq.
    split; [done|]. eapply execute_stamped; eauto.
Qed.

Lemma foldl_inject_step_stamped sched js m :
  m ∈ sched.*2 ∨ entry_stamped (USER_CACHE js.2) m →
  entry_stamped (USER_CACHE (foldl (inject_step E G) js sched).2) m.
Proof.
  revert js. induction sched as [|[c m'] sched IH]; intros js H; simpl.
  - destruct H as [H|H]; [|done]. by apply elem_of_nil in H.
  - apply IH. rewrite fmap_cons, elem_of_cons in H.
    destruct (decide (m = m')) as [->|Hne].
    + right. unfold inject_step. simpl. apply inject_method_stamped.
    + destruct H as [[?|H]|H]; [done|by left|]. right.
      unfold inject_step. simpl.
      destruct (inject_method_cache_key E G c m' js.1 js.2) as (entry & ->).
      unfold entry_stamped. by rewrite lookup_insert_ne.
Qed.

(** X3: After [inject] every registered method has an entry in the cache, and
    an entry whose result is a dict holds [cached_until]: the next lookup
    of it does not end in [KeyError]. *)
Theorem inject_stamps_entries c m j s :
  registered G c m →
  ∃ index result,
    USER_CACHE (inject E G j s).2 !! m = Some (index, result) ∧
    stamped result = true.
Proof.
  intros Hreg. rewrite inject_schedule.
  apply (foldl_inject_step_stamped (schedule G) (j, s)). left.
  apply list_elem_of_fmap. exists (c, m). split; [done|].
  by apply elem_of_schedule.
Qed.


End more_inject_facts.
End InjectFacts.

Module MoreTransformFacts.
Import Py Relay Facts TransformFacts JsonFacts Main.

Section more_transform_facts.
Context (E : Env) (G : globals).
Implicit Types (s : state E) (item : value) (delta : Z).

Lemma transform_item_keeps delta item item' :
  transform_item E G delta item = Ok item' →
  getitem item' "name" = getitem item "name" ∧
  (is_clock_item item = false → item' = item).
Proof.
  intros H. apply transform_item_ok in H as (d & name & -> & Hname & H).
  destruct H as [[Hc ->]|(Hc & text & x & y & text' & _ & _ & _ & _ & ->)].
  - done.
  - split.
    + simpl. rewrite dict_get_mark_ne by done. by rewrite dict_get_set_ne.
    + unfold is_clock_item. simpl. rewrite Hname. congruence.
Qed.

Lemma transform_items_keep delta l :
  Forall2 (fun x y => getitem y "name" = getitem x "name" ∧
                      (is_clock_item x = false → y = x))
          l (transform_items E G delta l).1.
Proof.
  induction l as [|item l IH]; simpl; [constructor|].
  destruct (transform_item E G delta item) as [item'|e] eqn:Hi.
  - destruct (transform_items E G delta l) as [rest' e']. simpl in *.
    constructor; [|done]. by apply (transform_item_keeps delta).
  - simpl. apply Forall2_same_length_lookup_2; [done|].
    intros i x y Hx Hy. by simplify_eq.
Qed.

(** X5: [transform] neither adds, drops nor moves a segment: the tick it
    returns has the segments of the incoming tick, each under the name it
    had, and a segment whose name is not that of a clock is the one that
    came.  An object that is not a list is returned as it came. *)
Theorem transform_keeps_shape j delta s :
  match j with
  | VList l =>
      ∃ l', (transform E G j delta s).1 = VList l' ∧
            length l' = length l ∧
            Forall2 (fun x y => getitem y "name" = getitem x "name" ∧
                                (is_clock_item x = false → y = x)) l l'
  | _ => (transform E G j delta s).1 = j
  end.
Proof.
  unfold transform, transform_loop.
  destruct j as [|b|n|str|l|d]; try done.
  - by destruct str.
  - pose proof (transform_items_keep delta l) as H.
    destruct (transform_items E G delta l) as [l' e]. simpl in H.
    exists l'. split; [by destruct e|]. split; [|done].
    symmetry. by eapply Forall2_length.
  - by destruct d.
Qed.

Lemma transform_item_keys delta item item' :
  (delta ≤ 0)%Z →
  transform_item E G delta item = Ok item' → keys item' = keys item.
Proof.
  intros Hd H. apply transform_item_ok in H as (d & name & -> & Hname & H).
  destruct H as [[Hc ->]|(Hc & text & x & y & text' & Ht & _ & _ & _ & ->)];
    [done|].
  unfold mark. destruct (Z.ltb_spec 0 delta) as [|_]; [lia|].
  simpl. rewrite dict_set_keys. unfold dict_has. by rewrite Ht.
Qed.

(** X6: Without a positive delta [transform] gives no segment a key that it
    did not have: [transformed] is never set. *)
Theorem transform_without_delta_keeps_keys delta l s :
  (delta ≤ 0)%Z →
  ∃ l', (transform E G (VList l) delta s).1 = VList l' ∧
        Forall2 (fun x y => keys y = keys x) l l'.
Proof.
  intros Hd. unfold transform, transform_loop.
  assert (Forall2 (fun x y => keys y = keys x) l (transform_items E G delta l).1) as H.
  { induction l as [|item l IH]; simpl; [constructor|].
    destruct (transform_item E G delta item) as [item'|e] eqn:Hi.
    - destruct (transform_items E G delta l) as [rest' e']. simpl in *.
      constructor; [|done]. by apply (transform_item_keys delta).
    - simpl. apply Forall2_same_length_lookup_2; [done|].
      intros i x y Hx Hy. by simplify_eq. }
  destruct (transform_items E G delta l) as [l' e]. simpl in H.
  exists l'. split; [by destruct e|done].
Qed.

Lemma transform_item_marks delta item item' :
  (0 < delta)%Z →
  transform_item E G delta item = Ok item' →
  item' = item ∨ getitem item' "transformed" = Ok (VBool true).
Proof.
  intros Hd H. apply transform_item_ok in H as (d & name & -> & Hname & H).
  destruct H as [[Hc ->]|(Hc & text & x & y & text' & Ht & _ & _ & _ & ->)];
    [by left|right].
  unfold mark. destruct (Z.ltb_spec 0 delta) as [_|]; [|lia].
  simpl. by rewrite dict_get_set_eq.
Qed.

(** X7: With a positive delta every segment that [transform] has changed
    holds [transformed] as [True]. *)
Theorem transform_with_delta_marks delta l s :
  (0 < delta)%Z →
  ∃ l', (transform E G (VList l) delta s).1 = VList l' ∧
        Forall2 (fun x y => y = x ∨ getitem y "transformed" = Ok (VBool true))
                l l'.
Proof.
  intros Hd. unfold transform, transform_loop.
  assert (Forall2 (fun x y => y = x ∨ getitem y "transformed" = Ok (VBool true))
                  l (transform_items E G delta l).1) as H.
  { induction l as [|item l IH]; simpl; [constructor|].
    destruct (transform_item E G delta item) as [item'|e] eqn:Hi.
    - destruct (transform_items E G delta l) as [rest' e']. simpl in *.
      constructor; [|done]. by apply (transform_item_marks delta).
    - simpl. apply Forall2_same_length_lookup_2; [done|].
      intros i x y Hx Hy. left. by simplify_eq. }
  destruct (transform_items E G delta l) as [l' e]. simpl in H.
  exists l'. split; [by destruct e|done].
Qed.

End more_transform_facts.
End MoreTransformFacts.

Module LoopFacts.
Import Py Relay Facts JsonFacts LineFacts Main.

Section loop_facts.
Context (E : Env) (G : globals).
Implicit Types (s : state E) (j : value) (ls : loop_state E).

Lemma relayed_stdout delta j s : stdout (relayed E G delta j s).2 = stdout s.
Proof.
  unfold relayed.
  destruct (if DISABLE_TRANSFORM G then (j, s) else transform E G j delta s)
    as [j1 s1] eqn:Ht.
  rewrite inject_stdout.
  destruct (DISABLE_TRANSFORM G).
  - by injection Ht as <- <-.
  - pose proof (transform_stdout E G j delta s) as H. by rewrite Ht in H.
Qed.

(** [process_line] on a line that is neither the header nor the opening
    bracket. *)
Lemma process_line_relayed line delta s :
  is_header line = false → is_array_open line = false →
  process_line E G line delta s
  = match Json.loads (payload line) with
    | None => (Raise ValueError, s)
    | Some j0 =>
        let prefix :=
          if str_startswith "," line || (0 <? delta)%Z then "," else EmptyString in
        let (j2, s2) := relayed E G delta j0 s in
        (Ok (Some (prefix +:+ Json.dumps j2)),
         print_line E (prefix +:+ Json.dumps j2) s2)
    end.
Proof.
  intros Hh Ha. unfold process_line, payload, relayed. rewrite Hh, Ha.
  destruct (str_startswith "," line); cbn [orb].
  - destruct (Json.loads (str_drop 1 line)) as [j0|]; [|done].
    destruct (if DISABLE_TRANSFORM G then _ else _) as [j1 s1].
    by destruct (inject E G j1 s1).
  - destruct (0 <? delta)%Z;
      (destruct (Json.loads line) as [j0|]; [|done]);
      destruct (if DISABLE_TRANSFORM G then _ else _) as [j1 s1];
      by destruct (inject E G j1 s1).
Qed.

Lemma process_line_preamble line delta s :
  is_header line || is_array_open line = true →
  process_line E G line delta s = (Ok None, print_line E (strip_nl line) s).
Proof.
  unfold process_line. destruct (is_header line); [done|].
  by destruct (is_array_open line).
Qed.

(** What a call of [process_line] writes: one line when it returns,
    nothing when it raises. *)
Lemma process_line_writes line delta s :
  match process_line E G line delta s with
  | (Ok _, s') => ∃ x, stdout s' = stdout s ++ [x]
  | (Raise _, s') => s' = s
  end.
Proof.
  destruct (is_header line || is_array_open line) eqn:Hp.
  - rewrite (process_line_preamble _ _ _ Hp). by eexists.
  - apply orb_false_iff in Hp as [Hh Ha].
    rewrite (process_line_relayed _ _ _ Hh Ha).
    destruct (Json.loads (payload line)) as [j0|]; [|done].
    cbv zeta. pose proof (relayed_stdout delta j0 s) as Hs.
    destruct (relayed E G delta j0 s) as [j2 s2]. simpl in Hs.
    eexists. simpl. by rewrite Hs.
Qed.

Lemma main_loop_body_stdout ev ls :
  ∃ out,
    stdout (relay (state_of (main_loop_body E G ev ls)))
    = stdout (relay ls) ++ out ∧ (length out ≤ 1)%nat.
Proof.
  unfold main_loop_body.
  destruct (time E (relay ls)) as [tst s] eqn:Ht.
  assert (stdout s = stdout (relay ls)) as Hs by (by injection Ht as _ <-).
  destruct ev as [l started|started init active_count| |].
  - destruct (if started then _ else _) as [forced' s1] eqn:Hf.
    assert (stdout s1 = stdout (relay ls)) as Hs1.
    { destruct started; [|by injection Hf as _ <-].
      destruct (negb (forced ls) && _); by injection Hf as _ <-. }
    pose proof (process_line_writes l 0 s1) as Hp.
    destruct (process_line E G l 0 s1) as [[r|e] s2]; simpl.
    + destruct Hp as [x Hp]. exists [x]. rewrite Hp, Hs1. split; [done|simpl; lia].
    + subst s2. exists []. rewrite Hs1, app_nil_r. split; [done|simpl; lia].
  - destruct (started || negb init).
    + destruct (line ls) as [| |l]; simpl;
        try (exists []; rewrite Hs, app_nil_r; split; [done|simpl; lia]).
      pose proof (process_line_writes l (INTERVAL G) s) as Hp.
      destruct (process_line E G l (INTERVAL G) s) as [[r|e] s2]; simpl.
      * destruct Hp as [x Hp]. exists [x].
        destruct (active_count <? 2)%nat; simpl; rewrite Hp, Hs;
          (split; [done|simpl; lia]).
      * subst s2. exists []. rewrite Hs, app_nil_r. split; [done|simpl; lia].
    + simpl. exists []. rewrite Hs, app_nil_r. split; [done|simpl; lia].
  - simpl. exists []. rewrite Hs, app_nil_r. split; [done|simpl; lia].
  - simpl. exists []. rewrite Hs, app_nil_r. split; [done|simpl; lia].
Qed.

(** X8: The relay never takes back what it wrote: however the main loop runs
    and ends, its output starts with the output so far, and an iteration
    adds at most one line. *)
Theorem main_loop_output_grows events ls :
  ∃ out,
    stdout (relay (state_of (main_loop E G events ls)))
    = stdout (relay ls) ++ out ∧ (length out ≤ length events)%nat.
Proof.
  revert ls. induction events as [|ev events IH]; intros ls; simpl.
  - exists []. by rewrite app_nil_r.
  - destruct (main_loop_body_stdout ev ls) as (out1 & H1 & Hl1).
    destruct (main_loop_body E G ev ls) as [ls'|ls'|code ls'] eqn:Hb;
      simpl in H1.
    + destruct (IH ls') as (out2 & H2 & Hl2).
      exists (out1 ++ out2). rewrite H2, H1, app_assoc, length_app.
      split; [done|lia].
    + exists out1. split; [done|lia].
    + exists out1. split; [done|lia].
Qed.

(** Whatever ends the main loop with [sys.exit] ends it with status 2. *)
Lemma main_loop_body_exit ev ls code ls' :
  main_loop_body E G ev ls = Exit code ls' → code = 2%Z.
Proof.
  unfold main_loop_body.
  destruct (time E (relay ls)) as [tst s].
  destruct ev as [l started|started init active_count| |]; try discriminate.
  - destruct (if started then _ else _) as [forced' s1].
    destruct (process_line E G l 0 s1) as [[r|e] s2]; [discriminate|].
    by intros [= <- _].
  - destruct (started || negb init); [|discriminate].
    destruct (line ls) as [| |l]; try by intros [= <- _].
    destruct (process_line E G l (INTERVAL G) s) as [[r|e] s2].
    + by destruct (active_count <? 2)%nat.
    + by intros [= <- _].
Qed.

(** X9: While i3status has not started (the thread has seen neither a tick nor
    a line that starts with a comma), a wait that times out writes nothing,
    calls no plugin and leaves the cache alone: it logs that the relay
    waits and the loop goes on. *)
Theorem main_loop_waits events ls :
  Forall (fun ev => ∃ n, ev = QueueEmpty false true n) events →
  ∃ ls',
    main_loop E G events ls = Continue ls' ∧
    line ls' = line ls ∧ forced ls' = forced ls ∧
    stdout (relay ls') = stdout (relay ls) ∧
    invocations (relay ls') = invocations (relay ls) ∧
    USER_CACHE (relay ls') = USER_CACHE (relay ls) ∧
    syslog (relay ls')
    = syslog (relay ls) ++ replicate (length events) WaitingForI3status.
Proof.
  intros H. revert ls. induction H as [|ev events [n ->] _ IH]; intros ls.
  - exists ls. simpl. by rewrite app_nil_r.
  - simpl.
    destruct (IH {| line := line ls; forced := forced ls;
                    relay := syslog_write E WaitingForI3status
                               (time E (relay ls)).2 |})
      as (ls' & Hl & H1 & H2 & H3 & H4 & H5 & H6).
    exists ls'. split; [done|]. simpl in *.
    rewrite <- app_assoc in H6. done.
Qed.

(** X10: A wait that times out while the last line is the header or the
    opening bracket writes that line once more and leaves [line] at
    [None]; the next such wait ends the relay with status 2. *)
Theorem main_loop_preamble_timeouts started init n started' init' n' ls l :
  line ls = LineStr l →
  is_header l || is_array_open l = true →
  started || negb init = true →
  started' || negb init' = true →
  (2 ≤ n)%nat →
  ∃ ls',
    main_loop E G [QueueEmpty started init n; QueueEmpty started' init' n'] ls
    = Exit 2 ls' ∧
    line ls' = LineNone ∧
    stdout (relay ls')
    = stdout (relay ls) ++ [strip_nl l +:+ String newline EmptyString].
Proof.
  intros Hl Hp Hgo Hgo' Hn. simpl.
  rewrite (main_loop_body_empty _ _ _ _ _ _ _ Hl Hgo).
  rewrite (process_line_preamble _ _ _ Hp).
  destruct (Nat.ltb_spec n 2) as [|_]; [lia|]. cbv zeta.
  unfold main_loop_body. simpl. rewrite Hgo'. eexists.
  split; [reflexivity|]. by split.
Qed.



(** *** A line that the relay wrote, processed again *)


(** X13: The text that a timed-out wait leaves in [line] is a comma and an
    encoded tick.  The next timed-out wait decodes that very tick, segments
    of the plugins included, and transforms it and injects into it again:
    what it writes is the encoding of the tick relayed twice. *)
Theorem process_line_own_output j delta s :
  Json.wf j →
  process_line E G ("," +:+ Json.dumps j) delta s
  = let (j2, s2) := relayed E G delta j s in
    (Ok (Some ("," +:+ Json.dumps j2)),
     print_line E ("," +:+ Json.dumps j2) s2).
Proof.
  intros Hwf.
  rewrite process_line_relayed by done.
  unfold payload. change ("," +:+ Json.dumps j) with (String "," (Json.dumps j)).
  simpl. by rewrite (loads_dumps _ Hwf).
Qed.

End loop_facts.

(** *** [read_line] *)

Lemma lstrip_head p s :
  match PyStr.lstrip p s with
  | EmptyString => True
  | String a _ => p a = false
  end.
Proof.
  induction s as [|a s IH]; [done|]. simpl.
  destruct (p a) eqn:Ha; [done|]. by rewrite Ha.
Qed.

Lemma rstrip_head p a s :
  p a = false → ∃ r, PyStr.rstrip p (String a s) = String a r.
Proof.
  intros Ha. simpl. destruct (PyStr.rstrip p s); rewrite ?Ha; by eexists.
Qed.

Lemma rstrip_rstrip p s :
  PyStr.rstrip p (PyStr.rstrip p s) = PyStr.rstrip p s.
Proof.
  induction s as [|a s IH]; [done|]. simpl.
  destruct (PyStr.rstrip p s) as [|b r] eqn:Hr.
  - destruct (p a) eqn:Ha; [done|]. simpl. by rewrite Ha.
  - change (PyStr.rstrip p (String a (String b r)))
      with (match PyStr.rstrip p (String b r) with
            | EmptyString => if p a then EmptyString else String a EmptyString
            | r' => String a r'
            end).
    by rewrite IH.
Qed.

Lemma strip_strip p s : PyStr.strip p (PyStr.strip p s) = PyStr.strip p s.
Proof.
  unfold PyStr.strip.
  pose proof (lstrip_head p s) as Hhead.
  destruct (PyStr.lstrip p s) as [|a t]; [done|].
  destruct (rstrip_head p a t Hhead) as [r Hr]. rewrite Hr.
  assert (PyStr.lstrip p (String a r) = String a r) as ->
    by (simpl; by rewrite Hhead).
  by rewrite <- Hr, rstrip_rstrip.
Qed.

(** X26: What [read_line] returns is never empty and has no blank at either
    end: stripping it again changes nothing. *)
Theorem read_line_stripped raw line :
  read_line (Some raw) = inr line →
  line ≠ EmptyString ∧ PyStr.strip PyStr.is_space line = line.
Proof.
  unfold read_line.
  destruct (String.eqb_spec (PyStr.strip PyStr.is_space raw) EmptyString)
    as [|Hne]; [discriminate|].
  intros [= <-]. split; [done|]. apply strip_strip.
Qed.

End LoopFacts.

Module ConfigFacts.
Import Py PyStr Config Facts JsonFacts.

Lemma split_nonempty sep s : ∃ piece pieces, split sep s = piece :: pieces.
Proof.
  induction s as [|a s (piece & pieces & IH)]; simpl; [by eexists _, _|].
  destruct (Ascii.eqb a sep); [by eexists _, _|].
  rewrite IH. by eexists _, _.
Qed.

Lemma str_contains_char c a s :
  str_contains (String c EmptyString) (String a s)
  = if Ascii.eqb c a then true else str_contains (String c EmptyString) s.
Proof. simpl. by destruct (Ascii.eqb c a). Qed.

(** Under the guard ['=' in line] the second piece of the split exists. *)
Lemma split_contains sep s :
  str_contains (String sep EmptyString) s = true →
  ∃ first second rest, split sep s = first :: second :: rest.
Proof.
  induction s as [|a s IH]; [discriminate|].
  rewrite str_contains_char. simpl split.
  rewrite (Ascii.eqb_sym a sep).
  destruct (Ascii.eqb sep a).
  - intros _. destruct (split_nonempty sep s) as (piece & pieces & ->).
    by eexists _, _, _.
  - intros H. destruct (IH H) as (first & second & rest & ->).
    by eexists _, _, _.
Qed.

Lemma key_value_guarded line :
  str_contains "=" line = true → is_Some (key_value line).
Proof.
  intros H. unfold key_value.
  destruct (split_contains "=" line H) as (first & second & rest & ->).
  by eexists.
Qed.

Lemma split_no_sep sep s :
  str_contains (String sep EmptyString) s = false → split sep s = [s].
Proof.
  induction s as [|a s IH]; [done|].
  rewrite str_contains_char. simpl split. rewrite (Ascii.eqb_sym a sep).
  destruct (Ascii.eqb sep a); [discriminate|].
  intros H. by rewrite (IH H).
Qed.

Lemma split_append sep a b :
  str_contains (String sep EmptyString) a = false →
  split sep (a +:+ String sep b) = a :: split sep b.
Proof.
  induction a as [|x a IH].
  - intros _. rewrite append_nil_l. simpl. by rewrite Ascii.eqb_refl.
  - rewrite str_contains_char, append_cons. simpl split.
    rewrite (Ascii.eqb_sym x sep).
    destruct (Ascii.eqb sep x); [discriminate|].
    intros H. by rewrite (IH H).
Qed.

Section reader_facts.
Variable eval : string → option value.






Lemma reader_step_closed cfg raw :
  opens_section raw = false →
  reader_step eval {| in_time := false; in_general := false; current := cfg |} raw
  = Some {| in_time := false; in_general := false; current := cfg |}.
Proof.
  unfold opens_section, reader_step. intros H.
  apply orb_false_iff in H as [-> ->]. cbn [in_time in_general current].
  by destruct (str_startswith "}" (strip is_blank raw)).
Qed.

(** X15: Outside the two sections (before the first of them and after a line
    that starts with a closing brace) the reader skips the lines that do
    not open one: their assignments are not read and nothing in them is
    evaluated. *)
Theorem reader_skips_outside_sections cfg skipped rest :
  Forall (fun raw => opens_section raw = false) skipped →
  reader_loop eval {| in_time := false; in_general := false; current := cfg |}
              (skipped ++ rest)
  = reader_loop eval {| in_time := false; in_general := false; current := cfg |}
                rest.
Proof.
  induction 1 as [|raw skipped Hraw _ IH]; [done|].
  simpl. by rewrite (reader_step_closed _ _ Hraw).
Qed.

(** *** Exceptions *)

Lemma reader_step_total st raw :
  (∀ src, is_Some (eval src)) → is_Some (reader_step eval st raw).
Proof.
  intros Heval. unfold reader_step.
  destruct (if str_startswith "general" _ then _ else _) as [general time].
  assert (∀ cfg, is_Some (if general && str_contains "=" (strip is_blank raw)
                          then assign_general eval (strip is_blank raw) cfg
                          else Some cfg)) as H1.
  { intros cfg. destruct (str_contains "=" _) eqn:Hc; [|by rewrite andb_false_r].
    destruct general; [|done]. simpl. unfold assign_general.
    destruct (key_value_guarded _ Hc) as [[key value] ->]. simpl.
    destruct (dict_has key cfg); [|done].
    by destruct (Heval (python_bool value)) as [v ->]. }
  assert (∀ cfg, is_Some (if time && str_contains "=" (strip is_blank raw)
                          then assign_time eval (strip is_blank raw) cfg
                          else Some cfg)) as H2.
  { intros cfg. destruct (str_contains "=" _) eqn:Hc; [|by rewrite andb_false_r].
    destruct time; [|done]. simpl. unfold assign_time.
    destruct (key_value_guarded _ Hc) as [[key value] ->]. simpl.
    destruct (dict_has _ cfg); [|done].
    by destruct (Heval value) as [v ->]. }
  destruct (H1 (current st)) as [cfg1 ->]. simpl.
  by destruct (H2 cfg1) as [cfg2 ->].
Qed.

(** X16: Once the file is open the reader raises only where [eval] does: under
    the guard of the equals sign both indices into the split line are in
    range, so with an evaluator that accepts every value of the file the
    reader returns. *)
Theorem reader_raises_only_in_eval lines :
  (∀ src, is_Some (eval src)) →
  is_Some (i3status_config_reader eval lines).
Proof.
  intros Heval. unfold i3status_config_reader.
  assert (∀ st, is_Some (reader_loop eval st lines)) as H.
  { induction lines as [|raw lines IH]; intros st; simpl; [done|].
    destruct (reader_step_total st raw Heval) as [st1 ->]. simpl. apply IH. }
  by destruct (H {| in_time := false; in_general := false; current := config |})
    as [st ->].
Qed.

(** *** The format of the output *)






(** *** The value of an assignment *)

Lemma key_value_second_equals key value rest :
  str_contains "=" key = false → str_contains "=" value = false →
  key_value (key +:+ String "=" (value +:+ String "=" rest))
  = key_value (key +:+ String "=" value).
Proof.
  intros Hk Hv. unfold key_value.
  rewrite !split_append by done. by rewrite (split_no_sep _ _ Hv).
Qed.

(** X18: Of a line with more than one equals sign the reader takes the value
    between the first and the second: what follows the second is dropped
    before the value is evaluated. *)
Theorem assign_drops_after_second_equals key value rest cfg :
  str_contains "=" key = false → str_contains "=" value = false →
  let long := key +:+ String "=" (value +:+ String "=" rest) in
  let short := key +:+ String "=" value in
  assign_general eval long cfg = assign_general eval short cfg ∧
  assign_time eval long cfg = assign_time eval short cfg.
Proof.
  intros Hk Hv long short. unfold assign_general, assign_time. subst long short.
  by rewrite (key_value_second_equals _ _ _ Hk Hv).
Qed.

End reader_facts.
End ConfigFacts.

Module I3statusFacts.
Import Py I3status.

(** The tests of [classify] on the lines that follow the first two. *)
Lemma comma_bracket_not_bracket line :
  str_startswith ",[" line = true → str_startswith "[" line = false.
Proof.
  destruct line as [|a line]; [done|].
  change (str_startswith ",[" (String a line))
    with (if Ascii.eqb "," a then str_startswith "[" line else false).
  change (str_startswith "[" (String a line))
    with (if Ascii.eqb "[" a then true else false).
  destruct (Ascii.eqb_spec "," a) as [<-|]; [done|discriminate].
Qed.

Lemma classify_flags line t :
  queue (classify line t) = queue t ∧
  init (classify line t)
  = init t && negb ((1 <? String.length line)%nat && str_startswith "[" line) ∧
  started (classify line t) = started t || str_startswith ",[" line.
Proof.
  unfold classify.
  destruct (str_startswith ",[" line) eqn:Hc.
  - rewrite (comma_bracket_not_bracket _ Hc), andb_false_r. simpl.
    by rewrite andb_true_r, orb_true_r.
  - rewrite orb_false_r.
    destruct ((1 <? String.length line)%nat && str_startswith "[" line); simpl.
    + by rewrite andb_false_r.
    + by rewrite andb_true_r.
Qed.

Lemma run_loop_prefix kill n pipe t :
  ∃ k, queue (run_loop kill n pipe t) = queue t ++ take k pipe.
Proof.
  revert n t. induction pipe as [|line pipe IH]; intros n t; simpl.
  - exists 0%nat. rewrite app_nil_r. by destruct (kill n).
  - destruct (kill n); [exists 0%nat; by rewrite app_nil_r|].
    destruct (0 <? String.length line)%nat;
      [|exists 0%nat; by rewrite app_nil_r].
    destruct (IH (S n) (classify line (put line t))) as (k & ->).
    exists (S k). destruct (classify_flags line (put line t)) as (-> & _).
    simpl. by rewrite <- app_assoc.
Qed.

(** X19: The queue holds what the first two reads gave, followed by lines of
    i3status as they came: whenever the thread ends, it has put a prefix of
    the output on the queue, with no line changed, dropped or moved. *)
Theorem run_queues_prefix kill pipe :
  ∃ k,
    queue (run kill pipe)
    = [(readline pipe).1; (readline (readline pipe).2).1] ++ take k (drop 2 pipe).
Proof.
  unfold run.
  destruct pipe as [|first [|second pipe]]; simpl.
  - exists 0%nat. by destruct (kill 0%nat).
  - exists 0%nat. by destruct (kill 0%nat).
  - destruct (run_loop_prefix kill 0
                (pipe)
                (put second (put first {| queue := []; init := true; started := false |})))
      as (k & ->).
    by exists k.
Qed.




End I3statusFacts.

Module LoaderFacts.
Import Py PyStr Loader JsonFacts ConfigFacts.

Lemma str_take_drop n s : str_take n s +:+ str_drop n s = s.
Proof.
  revert s. induction n as [|n IH]; intros s; [done|].
  destruct s as [|a s]; [done|]. simpl str_take. simpl str_drop.
  by rewrite append_cons, IH.
Qed.

Lemma rfind_absent c s :
  str_contains (String c EmptyString) s = false → rfind c s = None.
Proof.
  induction s as [|a s IH]; [done|].
  rewrite str_contains_char. simpl rfind. rewrite (Ascii.eqb_sym a c).
  destruct (Ascii.eqb c a); [discriminate|].
  intros H. by rewrite (IH H).
Qed.

Lemma rfind_join c a b :
  str_contains (String c EmptyString) b = false →
  rfind c (a +:+ String c b) = Some (String.length a).
Proof.
  intros Hb. induction a as [|x a IH].
  - rewrite append_nil_l. simpl. by rewrite (rfind_absent _ _ Hb), Ascii.eqb_refl.
  - rewrite append_cons. simpl. by rewrite IH.
Qed.

Lemma str_drop_join a b : str_drop (String.length a) (a +:+ b) = b.
Proof. induction a as [|x a IH]; [by destruct b|]. by rewrite append_cons. Qed.

(** The base name of a file of the include directory is its name. *)
Lemma basename_join dirpath file_name :
  str_contains "/" file_name = false →
  basename (dirpath +:+ String "/" file_name) = file_name.
Proof.
  intros H. unfold basename. rewrite (rfind_join _ _ _ H).
  change (dirpath +:+ String "/" file_name)
    with (dirpath +:+ (String "/" EmptyString +:+ file_name)).
  rewrite <- append_assoc.
  replace (S (String.length dirpath))
    with (String.length (dirpath +:+ String "/" EmptyString)).
  - apply str_drop_join.
  - rewrite length_append. simpl. lia.
Qed.

Lemma splitext_parts p root ext :
  splitext p = (root, ext) →
  p = root +:+ ext ∧ (ext ≠ EmptyString → root ≠ EmptyString).
Proof.
  unfold splitext. destruct (rfind "." p) as [i|].
  - destruct (all_chars (Ascii.eqb ".") (str_take i p)) eqn:Hd.
    + intros [= <- <-]. by rewrite append_nil_r.
    + intros [= <- <-]. split; [by rewrite str_take_drop|].
      intros _ Hr. by rewrite Hr in Hd.
  - intros [= <- <-]. by rewrite append_nil_r.
Qed.

Section loader_facts.
Variable load_source : string → string → option (option instance).

(** X22: [load_from_file] gives an instance only for a file whose name is a
    module name that is not empty followed by [.py] in either case of the
    letters; the instance is the one that loading that module gave.  So
    the test of the module name in [main] never decides. *)
Theorem load_from_file_instance filepath mod_name inst :
  load_from_file load_source filepath = Some (mod_name, Some inst) →
  ∃ file_ext,
    basename filepath = mod_name +:+ file_ext ∧
    lower file_ext = ".py" ∧
    mod_name ≠ EmptyString ∧
    load_source mod_name filepath = Some (Some inst).
Proof.
  unfold load_from_file.
  destruct (splitext (basename filepath)) as [root ext] eqn:Hs.
  apply splitext_parts in Hs as [Hp Hroot].
  destruct (String.eqb_spec (lower ext) ".py") as [Hext|]; [|discriminate].
  destruct (load_source root filepath) as [loaded|] eqn:Hload; [|discriminate].
  simpl. intros [= <- ->]. exists ext. repeat split; try done.
  apply Hroot. intros ->. discriminate.
Qed.

(** What [main] has registered for the files seen so far. *)
Lemma register_all_spec include_path listing classes classes' file_name methods :
  register_all load_source include_path classes listing = Some classes' →
  classes' !! file_name = Some methods →
  classes !! file_name = Some methods ∨
  (file_name ∈ listing ∧
   ∃ mod_name inst,
     load_from_file load_source (include_path +:+ file_name)
     = Some (mod_name, Some inst) ∧
     truthy inst = true ∧
     methods = filter (fun m => is_method m = true) (dir inst)).
Proof.
  revert classes. induction listing as [|f listing IH]; intros classes; simpl.
  - intros [= <-]. by left.
  - destruct (register load_source include_path classes f) as [classes1|] eqn:Hr;
      [|discriminate].
    simpl. intros Hall Hm.
    destruct (IH _ Hall Hm) as [H1|(Hin & H)].
    2:{ right. split; [by apply list_elem_of_further|done]. }
    unfold register in Hr.
    destruct (load_from_file load_source (include_path +:+ f))
      as [[mod_name [inst|]]|] eqn:Hl; simpl in Hr; try discriminate.
    + destruct (negb (String.eqb mod_name EmptyString) && truthy inst) eqn:Ht.
      * injection Hr as <-.
        destruct (decide (file_name = f)) as [->|Hne].
        -- rewrite lookup_insert_eq in H1. injection H1 as <-.
           right. split; [by apply list_elem_of_here|].
           exists mod_name, inst. apply andb_true_iff in Ht as [_ Ht]. done.
        -- rewrite lookup_insert_ne in H1 by done. by left.
      * injection Hr as <-. by left.
    + injection Hr as <-. by left.
Qed.

(** X23: A class in [USER_CLASSES] comes from a file of the include directory
    whose name ends in [.py], in either case of the letters, after a
    module name that is not empty; its methods are the names that [dir]
    lists for the instance, without those that start with two underscores
    and in the order of [dir]. *)
Theorem discover_registers isdir dirpath listing classes file_name methods :
  Forall (fun f => str_contains "/" f = false) listing →
  discover load_source isdir (dirpath +:+ "/") listing = Some classes →
  classes !! file_name = Some methods →
  file_name ∈ listing ∧
  ∃ mod_name file_ext inst,
    file_name = mod_name +:+ file_ext ∧
    lower file_ext = ".py" ∧
    mod_name ≠ EmptyString ∧
    load_source mod_name (dirpath +:+ "/" +:+ file_name) = Some (Some inst) ∧
    methods = filter (fun m => is_method m = true) (dir inst).
Proof.
  intros Hl. unfold discover. destruct isdir.
  2:{ intros [= <-]. by rewrite lookup_empty. }
  intros Hall Hm.
  destruct (register_all_spec _ _ _ _ _ _ Hall Hm) as [H|(Hin & mod_name & inst & Hf & _ & ->)].
  { by rewrite lookup_empty in H. }
  split; [done|].
  apply load_from_file_instance in Hf as (ext & Hb & Hext & Hmod & Hload).
  rewrite append_assoc in Hb, Hload. rewrite append_cons, append_nil_l in Hb.
  rewrite basename_join in Hb.
  - by exists mod_name, ext, inst.
  - rewrite Forall_forall in Hl. by apply Hl.
Qed.

(** X24: No name that starts with two underscores is registered as a method,
    whatever the directory holds. *)
Theorem discover_skips_dunder isdir include_path listing classes file_name methods :
  discover load_source isdir include_path listing = Some classes →
  classes !! file_name = Some methods →
  Forall (fun m => str_startswith "__" m = false) methods.
Proof.
  unfold discover. destruct isdir.
  2:{ intros [= <-]. by rewrite lookup_empty. }
  intros Hall Hm.
  destruct (register_all_spec _ _ _ _ _ _ Hall Hm) as [H|(_ & mod_name & inst & _ & _ & ->)].
  { by rewrite lookup_empty in H. }
  apply Forall_forall. intros m Hin. apply list_elem_of_filter in Hin as [Hm' _].
  unfold is_method in Hm'. by apply negb_true_iff in Hm'.
Qed.

End loader_facts.
End LoaderFacts.

(** * The properties on concrete plugins and lines *)

Module Examples.
Import Py Relay Facts TransformFacts LineFacts Demo.

(** Closes a goal with a hypothesis that evaluates to the same statement. *)
Ltac by_vm H := revert H; vm_compute; exact (fun H => H).

(** Replaces the left-hand side of an equation by its value. *)
Ltac eval_lhs H :=
  match type of H with
  | ?a = _ =>
      let v := eval vm_compute in a in
      let Hv := fresh in
      assert (a = v) as Hv by (vm_compute; reflexivity);
      rewrite Hv in H; clear Hv
  end.

Lemma demo_add_seconds_additive d1 d2 x y :
  PyTime.add_seconds x d1 = Some y →
  PyTime.add_seconds y d2 = PyTime.add_seconds x (d1 + d2).
Proof.
  unfold PyTime.add_seconds.
  destruct ((PyTime.min_seconds <=? x + d1)%Z && (x + d1 <=? PyTime.max_seconds)%Z);
    [|discriminate].
  intros [= <-]. by rewrite Z.add_assoc.
Qed.


(** C2: the loop of [transform] ends at the failing segment; the clock
    segment after it would be updated on its own and is left as it came. *)
Lemma transform_skips_later_clock :
  let bad := clock_item "time" "garbage" in
  let later := clock_item "tztime" "2024-01-01 00:00:00" in
  transform_item env no_plugins 1 later
  = Ok (VDict [("name", VStr "tztime");
               ("full_text", VStr "2024-01-01 00:00:01");
               ("transformed", VBool true)]) ∧
  (transform env no_plugins (VList [bad; later]) 1 (init ∅)).1
  = VList [bad; later].
Proof. split; vm_compute; reflexivity. Qed.

Lemma transform_failure_stops_loop_witness :
  transform env no_plugins
    (VList ([clock_item "time" "2024-01-01 00:00:00"]
            ++ clock_item "time" "garbage"
            :: [clock_item "tztime" "2024-01-01 00:00:00"])) 1 (init ∅)
  = (VList ([VDict [("name", VStr "time");
                    ("full_text", VStr "2024-01-01 00:00:01");
                    ("transformed", VBool true)]]
            ++ clock_item "time" "garbage"
            :: [clock_item "tztime" "2024-01-01 00:00:00"]),
     syslog_write env (TransformationFailed ValueError) (init ∅)).
Proof.
  apply (transform_failure_stops_loop env no_plugins 1
           [clock_item "time" "2024-01-01 00:00:00"]
           [VDict [("name", VStr "time");
                   ("full_text", VStr "2024-01-01 00:00:01");
                   ("transformed", VBool true)]]
           (clock_item "time" "garbage")
           [clock_item "tztime" "2024-01-01 00:00:00"] ValueError (init ∅)).
  - constructor; [vm_compute; reflexivity | constructor].
  - vm_compute; reflexivity.
Defined.


(** C4 on a method that raises. *)
Lemma inject_method_raises_witness :
  let held := VDict [("name", VStr EmptyString); ("full_text", VStr EmptyString);
                     ("cached_until", VNum 1060)] in
  let js' := inject_method env (one_plugin "boom") "a.py" "boom"
               (VList [clock_item "time" "noon"]) (init ∅) in
  let js2 := inject_method env (one_plugin "boom") "a.py" "boom" (VList []) js'.2 in
  js'.1 = VList [held; clock_item "time" "noon"] ∧
  syslog js'.2 = [MethodFailed "boom"] ∧
  invocations js'.2 = [("a.py", "boom")] ∧
  js2.1 = VList [held] ∧
  invocations js2.2 = invocations js'.2.
Proof.
  intros held js' js2.
  assert ((cache_lookup env "boom" (init ∅)).1 = Miss) as H1
    by (vm_compute; reflexivity).
  assert ((call env "a.py" "boom" (VList [clock_item "time" "noon"])
             (I3STATUS_CONFIG (one_plugin "boom"))
             (plugins (cache_lookup env "boom" (init ∅)).2)).1 = Raises) as H2
    by (vm_compute; reflexivity).
  destruct (inject_method_raises env (one_plugin "boom") "a.py" "boom"
              [clock_item "time" "noon"] (init ∅) H1 H2)
    as (Htick & _ & Hlog & Hinv & _ & Hlater).
  assert (USER_CACHE js'.2 !! "boom" = Some (VNum 0, held)) as H3
    by (vm_compute; reflexivity).
  assert (clock env (time_calls js'.2) ≤ 1060)%Z as H4
    by (vm_compute; discriminate).
  destruct (Hlater "a.py" [] js'.2 H3 H4) as (Htick2 & Hinv2 & _).
  split; [by_vm Htick|]. split; [by_vm Hlog|]. split; [by_vm Hinv|].
  split; [by_vm Htick2 | exact Hinv2].
Defined.

(** C5: two classes with a method of the same name.  After the forced
    refresh emptied the cache, [inject] calls the method of the first class
    only; the method of the second class is registered and is not called. *)
Lemma forced_refresh_same_name :
  match main_loop_body env same_name SigUsr1 (at_rest far_cache Unbound) with
  | Continue ls' =>
      USER_CACHE (relay ls') = ∅ ∧
      registered same_name "b.py" "battery" ∧
      invocations (inject env same_name (VList []) (relay ls')).2
      = [("a.py", "battery")]
  | _ => False
  end.
Proof.
  split; [reflexivity|]. split.
  - exists ["battery"]. split; [vm_compute; reflexivity | by left].
  - vm_compute. reflexivity.
Qed.

Lemma inject_after_forced_refresh_witness :
  invocations (inject env two_plugins (VList []) (init ∅)).2
  = [("a.py", "battery"); ("b.py", "weather")].
Proof.
  assert (NoDup (schedule two_plugins).*2) as H1.
  { apply (bool_decide_unpack _). vm_compute. exact I. }
  assert (USER_CACHE (init ∅) = ∅) as H2 by reflexivity.
  destruct (inject_after_forced_refresh env two_plugins
              (at_rest far_cache Unbound) (VList []) (init ∅) H1 H2)
    as (_ & Hinv & _).
  by_vm Hinv.
Defined.



(** C7 across the end of a year: one second and then two seconds, against
    three seconds at once. *)
Lemma transform_deltas_add_witness :
  let tick := VList [clock_item "time" "2024-12-31 23:59:58"] in
  let once := transform env no_plugins tick (1 + 2) (init ∅) in
  let first := transform env no_plugins tick 1 (init ∅) in
  let twice := transform env no_plugins first.1 2 first.2 in
  once.1 = twice.1 ∧
  once.1 = VList [VDict [("name", VStr "time");
                         ("full_text", VStr "2025-01-01 00:00:01");
                         ("transformed", VBool true)]].
Proof.
  intros tick once first twice.
  assert (0 ≤ 1)%Z as H1 by (vm_compute; discriminate).
  assert (0 ≤ 2)%Z as H2 by (vm_compute; discriminate).
  assert (∀ x y : datetime env,
            add_seconds env x 1 = Some y →
            add_seconds env y 2 = add_seconds env x (1 + 2)) as H3.
  { intros x y. apply demo_add_seconds_additive. }
  assert (Forall (reparses env no_plugins 1)
            [clock_item "time" "2024-12-31 23:59:58"]) as H4.
  { constructor; [|constructor].
    intros text x y text' Ht Hx Hy Ht'.
    eval_lhs Ht. injection Ht as <-.
    eval_lhs Hx. injection Hx as <-.
    eval_lhs Hy. injection Hy as <-.
    eval_lhs Ht'. injection Ht' as <-.
    vm_compute. reflexivity. }
  assert (transform_loop env no_plugins 1
            (VList [clock_item "time" "2024-12-31 23:59:58"])
          = (VList [VDict [("name", VStr "time");
                           ("full_text", VStr "2024-12-31 23:59:59");
                           ("transformed", VBool true)]], None)) as H5
    by (vm_compute; reflexivity).
  assert (transform_loop env no_plugins 2
            (VList [VDict [("name", VStr "time");
                           ("full_text", VStr "2024-12-31 23:59:59");
                           ("transformed", VBool true)]])
          = (VList [VDict [("name", VStr "time");
                           ("full_text", VStr "2025-01-01 00:00:01");
                           ("transformed", VBool true)]], None)) as H6
    by (vm_compute; reflexivity).
  destruct (transform_deltas_add env no_plugins 1 2 _ _ _ (init ∅)
              H1 H2 H3 H4 H5 H6) as [Hsame Hvalue].
  apply (f_equal fst) in Hsame, Hvalue.
  split; [by_vm Hsame | by_vm Hvalue].
Defined.

(** C8: the first tick of i3status has no leading comma, the synthetic tick
    made from it has one. *)
Lemma synthetic_tick_adds_comma :
  let l := nl (dq "[{'name':'time','full_text':'2024-01-01 00:00:00'}]") in
  str_startswith "," l = false ∧
  match main_loop_body env no_plugins (QueueEmpty true false 2)
          (at_rest ∅ (LineStr l)) with
  | Continue ls' =>
      stdout (relay ls')
      = [nl (dq ",[{'name': 'time', 'full_text': '2024-01-01 00:00:01', 'transformed': true}]")]
  | _ => False
  end.
Proof. split; vm_compute; reflexivity. Qed.

Lemma synthetic_tick_has_comma_witness :
  let l := nl (dq "[{'name':'time','full_text':'2024-01-01 00:00:00'}]") in
  let ls := at_rest ∅ (LineStr l) in
  match main_loop_body env no_plugins (QueueEmpty true false 2) ls with
  | Continue ls' | Break ls' =>
      ∃ output,
        line ls' = LineStr output ∧
        str_startswith "," output = true ∧
        stdout (relay ls')
        = stdout (relay ls) ++ [output +:+ String newline EmptyString]
  | Exit code _ => code = 2%Z
  end.
Proof.
  intros l ls.
  assert (0 < INTERVAL no_plugins)%Z as H1 by (vm_compute; reflexivity).
  assert (line ls = LineStr l) as H2 by reflexivity.
  assert (is_header l = false) as H3 by (vm_compute; reflexivity).
  assert (is_array_open l = false) as H4 by (vm_compute; reflexivity).
  assert (true || negb false = true) as H5 by reflexivity.
  exact (synthetic_tick_has_comma env no_plugins true false 2 ls l
           H1 H2 H3 H4 H5).
Defined.

(** C9: the battery of [a.py] is spliced at the front first, the weather of
    [b.py] after it, so that the weather stands left of the battery. *)
Lemma inject_two_plugins_tick :
  (inject env two_plugins (VList [clock_item "time" "noon"]) (init ∅)).1
  = VList [weather;
           VDict [("name", VStr "battery"); ("full_text", VStr "87%");
                  ("cached_until", VNum 1060)];
           clock_item "time" "noon"].
Proof. vm_compute. reflexivity. Qed.

Lemma inject_iteration_order_witness :
  let l := [clock_item "time" "noon"] in
  let seg := fun (c m : string) => if String.eqb m "battery" then battery else weather in
  schedule two_plugins = [("a.py", "battery"); ("b.py", "weather")] ∧
  ∃ rs,
    (inject env two_plugins (VList l) (init ∅)).1
    = VList (take (Z.to_nat 0) l ++ reverse rs ++ drop (Z.to_nat 0) l) ∧
    Forall2 (fun cm r => ∃ now, r = with_cached_until two_plugins now (seg cm.1 cm.2))
            (schedule two_plugins) rs.
Proof.
  intros l seg.
  assert (schedule two_plugins = [("a.py", "battery"); ("b.py", "weather")])
    as Hsched by (vm_compute; reflexivity).
  split; [exact Hsched|].
  assert (0 ≤ 0 ≤ Z.of_nat (length l))%Z as H1
    by (split; vm_compute; discriminate).
  assert (NoDup (schedule two_plugins).*2) as H2.
  { apply (bool_decide_unpack _). vm_compute. exact I. }
  assert (USER_CACHE (init ∅) = ∅) as H3 by reflexivity.
  assert (∀ c m j (w : world env), registered two_plugins c m →
            (call env c m j (I3STATUS_CONFIG two_plugins) w).1
            = Returns (VNum 0) (seg c m)) as H4.
  { intros c m j w Hreg. apply elem_of_schedule in Hreg. rewrite Hsched in Hreg.
    apply elem_of_cons in Hreg as [[= -> ->] | Hreg]; [vm_compute; reflexivity|].
    apply list_elem_of_singleton in Hreg as [= -> ->]. vm_compute; reflexivity. }
  exact (proj2 (proj2 (proj2 (proj2
           (inject_iteration_order env two_plugins 0 seg l (init ∅) H1 H2 H3 H4))))).
Defined.


End Examples.

(** * Further examples *)

Module MoreExamples.
Import Py Relay Main Demo Samples.

(** Closes a goal with a hypothesis that evaluates to the same statement. *)
Ltac from_vm H := revert H; vm_compute; exact (fun H => H).

(** *** [inject] *)

Lemma inject_stamps_entries_witness :
  ∃ index result,
    USER_CACHE (inject env (one_plugin "battery") (VList []) (init ∅)).2
      !! "battery" = Some (index, result) ∧
    stamped result = true.
Proof.
  assert (registered (one_plugin "battery") "a.py" "battery") as H.
  { exists ["battery"]. split; [vm_compute; reflexivity | apply list_elem_of_here]. }
  exact (InjectFacts.inject_stamps_entries env (one_plugin "battery")
           "a.py" "battery" (VList []) (init ∅) H).
Defined.



(** *** [transform] *)

Lemma transform_without_delta_keeps_keys_witness :
  let l := [clock_item "time" "2024-12-31 23:59:58"; battery] in
  ∃ l', (transform env no_plugins (VList l) 0 (init ∅)).1 = VList l' ∧
        Forall2 (fun x y => keys y = keys x) l l'.
Proof.
  intros l.
  assert (0 ≤ 0)%Z as H by (vm_compute; discriminate).
  exact (MoreTransformFacts.transform_without_delta_keeps_keys env no_plugins
           0 l (init ∅) H).
Defined.

Lemma transform_with_delta_marks_witness :
  let l := [clock_item "time" "2024-12-31 23:59:58"; battery] in
  ∃ l', (transform env no_plugins (VList l) 1 (init ∅)).1 = VList l' ∧
        Forall2 (fun x y => y = x ∨ getitem y "transformed" = Ok (VBool true))
                l l'.
Proof.
  intros l.
  assert (0 < 1)%Z as H by (vm_compute; reflexivity).
  exact (MoreTransformFacts.transform_with_delta_marks env no_plugins
           1 l (init ∅) H).
Defined.

(** *** The main loop *)

Lemma main_loop_waits_witness :
  let events := [QueueEmpty false true 2; QueueEmpty false true 2] in
  let ls := at_rest ∅ Unbound in
  ∃ ls',
    main_loop env (one_plugin "battery") events ls = Continue ls' ∧
    line ls' = line ls ∧ forced ls' = forced ls ∧
    stdout (relay ls') = stdout (relay ls) ∧
    invocations (relay ls') = invocations (relay ls) ∧
    USER_CACHE (relay ls') = USER_CACHE (relay ls) ∧
    syslog (relay ls')
    = syslog (relay ls) ++ replicate (length events) WaitingForI3status.
Proof.
  intros events ls.
  assert (Forall (fun ev => ∃ n, ev = QueueEmpty false true n) events) as H.
  { constructor; [by exists 2%nat|]. constructor; [by exists 2%nat|]. constructor. }
  exact (LoopFacts.main_loop_waits env (one_plugin "battery") events ls H).
Defined.

Lemma main_loop_preamble_timeouts_witness :
  let l := nl "[" in
  let ls := at_rest ∅ (LineStr l) in
  ∃ ls',
    main_loop env no_plugins
      [QueueEmpty false false 2; QueueEmpty false false 2] ls
    = Exit 2 ls' ∧
    line ls' = LineNone ∧
    stdout (relay ls')
    = stdout (relay ls) ++ [strip_nl l +:+ String newline EmptyString].
Proof.
  intros l ls.
  assert (line ls = LineStr l) as H1 by reflexivity.
  assert (is_header l || is_array_open l = true) as H2
    by (vm_compute; reflexivity).
  assert (false || negb false = true) as H3 by reflexivity.
  assert (2 ≤ 2)%nat as H4 by (vm_compute; constructor).
  exact (LoopFacts.main_loop_preamble_timeouts env no_plugins
           false false 2 false false 2 ls l H1 H2 H3 H3 H4).
Defined.



(** The tick that a first timed-out wait wrote holds the battery; the second
    one finds it there and inserts the battery once more. *)
Lemma process_line_own_output_witness :
  let j := VList [cached_battery; clock_item "time" "2024-01-01 00:00:01"] in
  (process_line env (one_plugin "battery") ("," +:+ Json.dumps j) 1 (init ∅)).1
  = Ok (Some (dq (",[{'name': 'battery', 'full_text': '87%', 'cached_until': 1060}, "
                  +:+ "{'name': 'battery', 'full_text': '87%', 'cached_until': 1060}, "
                  +:+ "{'name': 'time', 'full_text': '2024-01-01 00:00:02', 'transformed': true}]"))).
Proof.
  intros j.
  assert (Json.wf j) as H.
  { apply (JsonFacts.loads_wf (Json.dumps j)). vm_compute. reflexivity. }
  pose proof (LoopFacts.process_line_own_output env (one_plugin "battery")
                j 1 (init ∅) H) as Hp.
  apply (f_equal fst) in Hp. from_vm Hp.
Defined.

(** Two waits that time out after one tick: the second line holds the
    battery twice. *)
Lemma synthetic_ticks_repeat_plugins :
  let l := nl (dq "[{'name':'time','full_text':'2024-01-01 00:00:00'}]") in
  stdout (relay (state_of
    (main_loop env (one_plugin "battery")
       [QueueEmpty true false 2; QueueEmpty true false 2]
       (at_rest ∅ (LineStr l)))))
  = [nl (dq (",[{'name': 'battery', 'full_text': '87%', 'cached_until': 1061}, "
             +:+ "{'name': 'time', 'full_text': '2024-01-01 00:00:01', 'transformed': true}]"));
     nl (dq (",[{'name': 'battery', 'full_text': '87%', 'cached_until': 1061}, "
             +:+ "{'name': 'battery', 'full_text': '87%', 'cached_until': 1061}, "
             +:+ "{'name': 'time', 'full_text': '2024-01-01 00:00:02', 'transformed': true}]"))].
Proof. vm_compute. reflexivity. Qed.

(** *** [read_line] *)

Lemma read_line_stripped_witness :
  let line := dq ",[{'name':'time'}]" in
  line ≠ EmptyString ∧ PyStr.strip PyStr.is_space line = line.
Proof.
  intros line.
  assert (read_line (Some (nl ("  " +:+ line))) = inr line) as H
    by (vm_compute; reflexivity).
  exact (LoopFacts.read_line_stripped (nl ("  " +:+ line)) line H).
Defined.

(** *** The config file *)


Lemma reader_skips_outside_sections_witness :
  let closed :=
    {| Config.in_time := false; Config.in_general := false;
       Config.current := Config.config |} in
  let skipped := [nl "# py3status"; nl (dq "order += 'time'"); nl "}";
                  nl (dq "output_format = 'i3bar'")] in
  Config.reader_loop literal_eval closed (skipped ++ sample_conf)
  = Config.reader_loop literal_eval closed sample_conf.
Proof.
  intros closed skipped.
  assert (Forall (fun raw => Config.opens_section raw = false) skipped) as H.
  { repeat (constructor; [vm_compute; reflexivity|]). constructor. }
  exact (ConfigFacts.reader_skips_outside_sections literal_eval Config.config
           skipped sample_conf H).
Defined.

Lemma reader_raises_only_in_eval_witness :
  is_Some (Config.i3status_config_reader (fun src => Some (VStr src)) sample_conf).
Proof.
  assert (∀ src, is_Some ((fun src => Some (VStr src)) src)) as H
    by (intros src; by eexists).
  exact (ConfigFacts.reader_raises_only_in_eval (fun src => Some (VStr src))
           sample_conf H).
Defined.


(** A time format with an equals sign loses what follows it, closing quote
    included. *)
Lemma assign_drops_after_second_equals_witness :
  let long := "format " +:+ String "=" (dq " '%H" +:+ String "=" (dq "%M'")) in
  let short := "format " +:+ String "=" (dq " '%H") in
  Config.assign_general literal_eval long Config.config
  = Config.assign_general literal_eval short Config.config ∧
  Config.assign_time literal_eval long Config.config
  = Config.assign_time literal_eval short Config.config.
Proof.
  assert (str_contains "=" "format " = false) as H1 by (vm_compute; reflexivity).
  assert (str_contains "=" (dq " '%H") = false) as H2 by (vm_compute; reflexivity).
  exact (ConfigFacts.assign_drops_after_second_equals literal_eval
           "format " (dq " '%H") (dq "%M'") Config.config H1 H2).
Defined.

(** *** The thread *)



(** *** The plugins *)

Lemma load_from_file_instance_witness :
  ∃ file_ext,
    Loader.basename "/home/u/.i3/py3status/battery.PY" = "battery" +:+ file_ext ∧
    PyStr.lower file_ext = ".py" ∧
    "battery" ≠ EmptyString ∧
    sample_source "battery" "/home/u/.i3/py3status/battery.PY"
    = Some (Some {| Loader.dir := ["__class__"; "__init__"; "_helper"; "battery"];
                    Loader.truthy := true |}).
Proof.
  assert (Loader.load_from_file sample_source "/home/u/.i3/py3status/battery.PY"
          = Some ("battery",
                  Some {| Loader.dir := ["__class__"; "__init__"; "_helper"; "battery"];
                          Loader.truthy := true |})) as H
    by (vm_compute; reflexivity).
  exact (LoaderFacts.load_from_file_instance sample_source _ _ _ H).
Defined.

Lemma discover_registers_witness :
  "battery.PY" ∈ sample_listing ∧
  ∃ mod_name file_ext inst,
    "battery.PY" = mod_name +:+ file_ext ∧
    PyStr.lower file_ext = ".py" ∧
    mod_name ≠ EmptyString ∧
    sample_source mod_name ("/home/u/.i3/py3status" +:+ "/" +:+ "battery.PY")
    = Some (Some inst) ∧
    ["_helper"; "battery"]
    = filter (fun m => Loader.is_method m = true) (Loader.dir inst).
Proof.
  assert (Forall (fun f => str_contains "/" f = false) sample_listing) as H1.
  { repeat (constructor; [vm_compute; reflexivity|]). constructor. }
  assert (Loader.discover sample_source true ("/home/u/.i3/py3status" +:+ "/")
            sample_listing = Some sample_classes) as H2
    by (vm_compute; reflexivity).
  assert (sample_classes !! "battery.PY" = Some ["_helper"; "battery"]) as H3
    by (vm_compute; reflexivity).
  exact (LoaderFacts.discover_registers sample_source true
           "/home/u/.i3/py3status" sample_listing sample_classes
           "battery.PY" ["_helper"; "battery"] H1 H2 H3).
Defined.

Lemma discover_skips_dunder_witness :
  Forall (fun m => str_startswith "__" m = false) ["_helper"; "battery"].
Proof.
  assert (Loader.discover sample_source true ("/home/u/.i3/py3status" +:+ "/")
            sample_listing = Some sample_classes) as H1
    by (vm_compute; reflexivity).
  assert (sample_classes !! "battery.PY" = Some ["_helper"; "battery"]) as H2
    by (vm_compute; reflexivity).
  exact (LoaderFacts.discover_skips_dunder sample_source true
           ("/home/u/.i3/py3status" +:+ "/") sample_listing sample_classes
           "battery.PY" ["_helper"; "battery"] H1 H2).
Defined.

End MoreExamples.
